(** * Prospect import, round-robin owner assignment and nightly scoring

    A shallow embedding of [functions/index.js]: the zod schema
    [ProspectSchema], [normalizeId], [pickOwner], the callable functions
    [importProspects] and [setUserRoleByEmail], and the scheduled job
    [recalculateScores], over an explicit model of the Firestore collections
    they read and write.

    Conventions of the embedding.
    - A JavaScript string is a [string] whose characters are UTF-16 code
      units below 256 (Latin-1); case mapping and white space are those of
      ECMAScript on that range.
    - A number that the code only ever uses as an integer (score, index,
      counter, epoch milliseconds) is a [Z]; [NaN] is [None] in [jsnum].
    - A Firestore document is a finite map from field names to values.
      Document ids are opaque path segments; the validity of an id as a
      path segment is not modelled.
    - Every [await] on a write is a store transition; a write batch is a
      list of staged writes applied by one transition at [commit]. The
      limit Firestore may put on the number of writes of one batch is not
      modelled. *)

From Stdlib Require Import ZArith QArith Qabs Ascii String List Sorted Bool Lia.
From stdpp Require Import base option list strings gmap fin_maps.

Open Scope string_scope.
Open Scope Z_scope.
Open Scope list_scope.

(* ===================================================================== *)
(** ** JavaScript primitives used by the source *)
(* ===================================================================== *)

Module JS.

(** [\s] of a regular expression and the white space of [trim], on code
    units below 256: TAB, LF, VT, FF, CR, SPACE and NO-BREAK SPACE. *)
Definition is_space (c : ascii) : bool :=
  let n := nat_of_ascii c in
  ((9 <=? n)%nat && (n <=? 13)%nat) || (n =? 32)%nat || (n =? 160)%nat.

(** [toLowerCase] on one code unit: A-Z, and the Latin-1 capitals
    U+00C0..U+00DE except the multiplication sign U+00D7. *)
Definition lower_char (c : ascii) : ascii :=
  let n := nat_of_ascii c in
  if ((65 <=? n)%nat && (n <=? 90)%nat)
     || ((192 <=? n)%nat && (n <=? 222)%nat && negb (n =? 215)%nat)
  then ascii_of_nat (n + 32) else c.

Fixpoint toLowerCase (s : string) : string :=
  match s with
  | EmptyString => EmptyString
  | String c r => String (lower_char c) (toLowerCase r)
  end.

(** [s.replace(/\s+/g, '')]: every maximal run of white space is deleted,
    that is, every white-space code unit is. *)
Fixpoint strip_spaces (s : string) : string :=
  match s with
  | EmptyString => EmptyString
  | String c r => if is_space c then strip_spaces r else String c (strip_spaces r)
  end.

Fixpoint trimStart (s : string) : string :=
  match s with
  | EmptyString => EmptyString
  | String c r => if is_space c then trimStart r else s
  end.

Fixpoint trimEnd (s : string) : string :=
  match s with
  | EmptyString => EmptyString
  | String c r =>
      match trimEnd r with
      | EmptyString => if is_space c then EmptyString else String c EmptyString
      | t => String c t
      end
  end.

Definition trim (s : string) : string := trimEnd (trimStart s).

(** [a || b] on strings: the empty string is falsy. *)
Definition str_or (a b : string) : string :=
  match a with EmptyString => b | _ => a end.

(** [Array.prototype.includes] on an array of strings (strict equality). *)
Definition includes (l : list string) (x : string) : bool :=
  existsb (String.eqb x) l.

(** JavaScript numbers restricted to the integers, with [None] for [NaN]. *)
Definition jsnum : Type := option Z.

(** [a % b] for integers: the remainder takes the sign of the dividend. *)
Definition rem (a b : Z) : Z := Z.rem a b.

(** [Math.max(a, b)]: [NaN] if either argument is. *)
Definition Math_max (a b : jsnum) : jsnum :=
  match a, b with
  | Some x, Some y => Some (Z.max x y)
  | _, _ => None
  end.

(** [a >= b] on numbers: false as soon as one side is [NaN]. *)
Definition ge (a b : jsnum) : bool :=
  match a, b with
  | Some x, Some y => (y <=? x)
  | _, _ => false
  end.

Definition sub (a b : jsnum) : jsnum :=
  match a, b with
  | Some x, Some y => Some (x - y)
  | _, _ => None
  end.

(** [Math.floor(a / b)] for integer [a] and positive integer [b]; the
    floating-point quotient of two integers of magnitude below 2^53 has the
    same floor as the exact quotient when [b] is the number of milliseconds
    in a day. *)
Definition floor_div (a : jsnum) (b : Z) : jsnum :=
  match a with
  | Some x => Some (x / b)
  | None => None
  end.

(** The largest magnitude of a Date's time value (ECMAScript TimeClip). *)
Definition max_time : Z := 8640000000000000.

Definition TimeClip (t : Z) : jsnum :=
  if (Z.abs t <=? max_time) then Some t else None.

End JS.

(* ===================================================================== *)
(** ** Identity normalizer *)
(* ===================================================================== *)

(** [const normalizeId = (domain, product) =>
      `${domain.replace(/\s+/g,'').toLowerCase()}_${product}`] *)
Definition normalizeId (domain product : string) : string :=
  (JS.toLowerCase (JS.strip_spaces domain) ++ "_" ++ product)%string.

(** Two strings that differ only in white space and in letter case: the
    relation generated by inserting or deleting a white-space code unit on
    either side and by replacing a code unit by one with the same lower-case
    form. *)
Inductive ws_case_equiv : string -> string -> Prop :=
| wce_nil : ws_case_equiv "" ""
| wce_skip_l c s t : JS.is_space c = true -> ws_case_equiv s t -> ws_case_equiv (String c s) t
| wce_skip_r c s t : JS.is_space c = true -> ws_case_equiv s t -> ws_case_equiv s (String c t)
| wce_char c d s t :
    JS.lower_char c = JS.lower_char d -> ws_case_equiv s t ->
    ws_case_equiv (String c s) (String d t).

(* ===================================================================== *)
(** ** Firestore: values, documents, collections *)
(* ===================================================================== *)

(** A Firestore [Timestamp]. *)
Record Timestamp : Type := mkTimestamp { seconds : Z; nanoseconds : Z }.

(** The range of [seconds] a [Timestamp] accepts (years 1 to 9999). *)
Definition min_seconds : Z := -62135596800.
Definition max_seconds : Z := 253402300799.

(** [Timestamp.fromMillis], as used when a JavaScript [Date] is serialised:
    [None] when the [Date] is invalid or out of the Timestamp range (the
    client library throws). *)
Definition Timestamp_fromMillis (t : JS.jsnum) : option Timestamp :=
  match t with
  | None => None
  | Some ms =>
      let secs := ms / 1000 in
      let nanos := (ms - secs * 1000) * 1000000 in
      if (min_seconds <=? secs) && (secs <=? max_seconds)
      then Some (mkTimestamp secs nanos) else None
  end.

Arguments Timestamp_fromMillis : simpl never.

(** Stored field values (the fragment the functions read and write). *)
Inductive fval : Type :=
| FNull
| FStr (s : string)
| FInt (z : Z)
| FNaN
| FArr (l : list string)
| FTime (t : Timestamp).

(** Values as handed to a write: a plain value, a JavaScript [Date] (by its
    time value) or the sentinel [FieldValue.serverTimestamp()]. *)
Inductive wval : Type :=
| WVal (v : fval)
| WDate (t : JS.jsnum)
| WServerTimestamp.

Abbreviation doc := (gmap string fval).
Abbreviation wdoc := (gmap string wval).

(** A document of [routing]: the rotation cursor of one scope. Only
    [pickOwner] writes this collection, always with these four fields. *)
Record Cursor : Type := mkCursor {
  lastIndex : Z;
  count : Z;
  c_tenantId : string;
  c_region : string
}.

(** A document of [roles], with the fields [setUserRoleByEmail] writes; a
    field is [None] when the document does not have it. *)
Record RoleDoc : Type := mkRoleDoc {
  rd_tenants : option (gmap string string);
  rd_regions : option (list string);
  rd_email : option string;
  rd_displayName : option string
}.

(** An element of the array [q.docs.map(d => ({ uid: d.id, ...d.data() }))]. *)
Record Owner : Type := mkOwner {
  uid : string;
  tenants : option (gmap string string);
  regions : option (list string);
  email : option string;
  displayName : option string
}.

(** Key of a prospect document: [tenants/{tenantId}/prospects/{id}]. *)
Abbreviation pkey := (string * string)%type.

Record store : Type := mkStore {
  (** [roles], in the order a collection query returns it (by id) *)
  roles : list (string * RoleDoc);
  (** [routing], by document id *)
  routing : gmap string Cursor;
  (** every [tenants/*/prospects/*] *)
  prospects : gmap pkey doc;
  (** [.../prospects/{id}/contacts], auto-id documents in commit order *)
  contacts : list (pkey * doc);
  (** [.../prospects/{id}/signals], auto-id documents in commit order *)
  signals : list (pkey * doc);
  (** [audit], auto-id documents in commit order *)
  audit : list doc
}.

Definition set_routing (s : store) (r : gmap string Cursor) : store :=
  mkStore (roles s) r (prospects s) (contacts s) (signals s) (audit s).

Definition set_roles (s : store) (r : list (string * RoleDoc)) : store :=
  mkStore r (routing s) (prospects s) (contacts s) (signals s) (audit s).

(** *** Write batches *)

Inductive write : Type :=
| WSetMerge (k : pkey) (d : wdoc)     (** [batch.set(ref, d, { merge: true })] *)
| WUpdate (k : pkey) (d : wdoc)       (** [batch.update(ref, d)] *)
| WAddContact (k : pkey) (d : wdoc)   (** [batch.set(base.collection("contacts").doc(), d)] *)
| WAddSignal (k : pkey) (d : wdoc)    (** [batch.set(base.collection("signals").doc(), d)] *)
| WAddAudit (d : wdoc).               (** [batch.set(db.collection("audit").doc(), d)] *)

(** Serialising one value at commit time [ct]; a [Date] that is not a valid
    Timestamp makes the commit fail. *)
Definition resolve_val (ct : Timestamp) (v : wval) : option fval :=
  match v with
  | WVal x => Some x
  | WDate t => FTime <$> Timestamp_fromMillis t
  | WServerTimestamp => Some (FTime ct)
  end.

Definition resolve_doc (ct : Timestamp) (d : wdoc) : option doc :=
  if decide (map_Forall (fun _ v => is_Some (resolve_val ct v)) d)
  then Some (omap (resolve_val ct) d) else None.

(** One write applied to the store; [None] when the write is rejected
    (a value that cannot be serialised, or an [update] of a document that
    does not exist). A merge-set and an update both overwrite the fields
    they carry and keep every other stored field. *)
Definition apply_write (ct : Timestamp) (s : store) (w : write) : option store :=
  match w with
  | WSetMerge k d =>
      d' ← resolve_doc ct d;
      Some (mkStore (roles s) (routing s)
              (<[k := d' ∪ default ∅ (prospects s !! k)]> (prospects s))
              (contacts s) (signals s) (audit s))
  | WUpdate k d =>
      d' ← resolve_doc ct d;
      old ← prospects s !! k;
      Some (mkStore (roles s) (routing s) (<[k := d' ∪ old]> (prospects s))
              (contacts s) (signals s) (audit s))
  | WAddContact k d =>
      d' ← resolve_doc ct d;
      Some (mkStore (roles s) (routing s) (prospects s)
              (contacts s ++ [(k, d')]) (signals s) (audit s))
  | WAddSignal k d =>
      d' ← resolve_doc ct d;
      Some (mkStore (roles s) (routing s) (prospects s)
              (contacts s) (signals s ++ [(k, d')]) (audit s))
  | WAddAudit d =>
      d' ← resolve_doc ct d;
      Some (mkStore (roles s) (routing s) (prospects s)
              (contacts s) (signals s) (audit s ++ [d']))
  end.

(** [batch.commit()]: every staged write is applied, in order, or none is. *)
Fixpoint commit (ct : Timestamp) (batch : list write) (s : store) : option store :=
  match batch with
  | [] => Some s
  | w :: rest => s' ← apply_write ct s w; commit ct rest s'
  end.

(* ===================================================================== *)
(** ** Request data and errors *)
(* ===================================================================== *)

(** Decoded request data. A number is the exact rational value of the
    double that was received. *)
#[warnings="-register-all"]
Inductive json : Type :=
| JNull
| JBool (b : bool)
| JNum (q : Q)
| JStr (s : string)
| JArr (l : list json)
| JObj (fields : list (string * json)).

(** What the functions throw. *)
Inductive error : Type :=
| AuthRequired            (** [Error("Auth required")] *)
| NoData                  (** [Error("No data provided")] *)
| CsvError                (** thrown by csv-parse *)
| TypeError               (** a property read on [null], a call of a non-function *)
| ZodError (path : string)  (** thrown by [ProspectSchema.parse]; the first issue *)
| CommitFailure           (** [batch.commit()] rejected *)
| GlobalAdminOnly         (** [Error("Global admin only")] *)
| EmailTenantsRequired    (** [Error("email and tenants map required")] *)
| UserNotFound.           (** thrown by [auth.getUserByEmail] *)

Abbreviation result := (sum error).

#[global] Instance result_ret : MRet result := fun _ x => inr x.
#[global] Instance result_bind : MBind result :=
  fun _ _ f x => match x with inl e => inl e | inr a => f a end.

#[global] Instance result_fmap : FMap result :=
  fun _ _ f x => match x with inl e => inl e | inr a => inr (f a) end.

(** Own-property read [o[k]] on a decoded object; [None] is [undefined]. *)
Fixpoint jget (fields : list (string * json)) (k : string) : option json :=
  match fields with
  | [] => None
  | (k', v) :: rest => if String.eqb k k' then Some v else jget rest k
  end.

Definition own_fields (v : json) : list (string * json) :=
  match v with JObj fs => fs | _ => [] end.

(** A user record of Firebase Auth. *)
Record UserRecord : Type := mkUser { u_uid : string; u_displayName : option string }.

(** The library functions the source calls and that are taken as given:
    [parse] of csv-parse (with the options of the call), [Date.parse] (the
    time value of [new Date(string)], [None] for an invalid date), the
    conversion of a string by [Number], the string a [Timestamp] object
    converts to when it is used as a primitive, and [auth.getUserByEmail]. *)
Record Runtime : Type := mkRuntime {
  csv_parse : string -> option (list json);
  Date_parse : string -> JS.jsnum;
  StringToNumber : string -> JS.jsnum;
  Timestamp_toString : Timestamp -> string;
  getUserByEmail : string -> option UserRecord
}.

(* ===================================================================== *)
(** ** [ProspectSchema] *)
(* ===================================================================== *)

Module Zod.

(** [z.string()] *)
Definition string_ (path : string) (v : option json) : result string :=
  match v with Some (JStr s) => inr s | _ => inl (ZodError path) end.

(** [z.string().min(n)] *)
Definition string_min (n : nat) (path : string) (v : option json) : result string :=
  s ← string_ path v;
  if (n <=? String.length s)%nat then inr s else inl (ZodError path).

(** [z.string().default(d)] *)
Definition string_default (d : string) (path : string) (v : option json) : result string :=
  match v with None => inr d | _ => string_ path v end.

(** [z.enum(opts)] *)
Definition enum (opts : list string) (path : string) (v : option json) : result string :=
  s ← string_ path v;
  if JS.includes opts s then inr s else inl (ZodError path).

(** [z.enum(opts).default(d)] *)
Definition enum_default (opts : list string) (d : string) (path : string)
    (v : option json) : result string :=
  match v with None => inr d | _ => enum opts path v end.

(** [schema.optional()] *)
Definition optional {A} (p : string -> option json -> result A) (path : string)
    (v : option json) : result (option A) :=
  match v with None => inr None | _ => Some <$> p path v end.

(** [Number.isInteger] on a rational. *)
Definition isInteger (q : Q) : bool := (Zpos (Qden (Qred q)) =? 1).

(** [z.number().int().min(lo).max(hi).default(d)] *)
Definition int_range_default (lo hi d : Z) (path : string) (v : option json) : result Z :=
  match v with
  | None => inr d
  | Some (JNum q) =>
      if isInteger q && (lo <=? Qnum (Qred q)) && (Qnum (Qred q) <=? hi)
      then inr (Qnum (Qred q)) else inl (ZodError path)
  | _ => inl (ZodError path)
  end.

(** [z.array(z.string())] on the elements *)
Fixpoint strings (path : string) (l : list json) : result (list string) :=
  match l with
  | [] => inr []
  | x :: r => s ← string_ path (Some x); t ← strings path r; inr (s :: t)
  end.

(** [z.array(z.string()).default([])] *)
Definition string_array_default (path : string) (v : option json) : result (list string) :=
  match v with
  | None => inr []
  | Some (JArr l) => strings path l
  | _ => inl (ZodError path)
  end.

(** [z.string().or(z.number())] *)
Definition string_or_number (path : string) (v : option json) : result (string + Q) :=
  match v with
  | Some (JStr s) => inr (inl s)
  | Some (JNum q) => inr (inr q)
  | _ => inl (ZodError path)
  end.

(** [z.array(elem)] *)
Fixpoint array_of {A} (elem : string -> json -> result A) (path : string)
    (l : list json) : result (list A) :=
  match l with
  | [] => inr []
  | x :: r => a ← elem path x; t ← array_of elem path r; inr (a :: t)
  end.

Definition array {A} (elem : string -> json -> result A) (path : string)
    (v : option json) : result (list A) :=
  match v with
  | Some (JArr l) => array_of elem path l
  | _ => inl (ZodError path)
  end.

End Zod.

(** An element of [contacts] after parsing. *)
Record Contact : Type := mkContact {
  ct_name : string;
  ct_title : option string;
  ct_email : option string;
  ct_phone : option string;
  ct_role : option string
}.

(** An element of [signals] after parsing. *)
Record Signal : Type := mkSignal {
  sg_type : string;
  sg_title : string;
  sg_date : option string;
  sg_source : option string
}.

Definition ContactSchema (path : string) (v : json) : result Contact :=
  match v with
  | JObj fs =>
      name ← Zod.string_ path (jget fs "name");
      title ← Zod.optional Zod.string_ path (jget fs "title");
      email ← Zod.optional Zod.string_ path (jget fs "email");
      phone ← Zod.optional Zod.string_ path (jget fs "phone");
      role ← Zod.optional Zod.string_ path (jget fs "role");
      inr (mkContact name title email phone role)
  | _ => inl (ZodError path)
  end.

Definition SignalSchema (path : string) (v : json) : result Signal :=
  match v with
  | JObj fs =>
      type ← Zod.string_ path (jget fs "type");
      title ← Zod.string_ path (jget fs "title");
      date ← Zod.optional Zod.string_ path (jget fs "date");
      source ← Zod.optional Zod.string_ path (jget fs "source");
      inr (mkSignal type title date source)
  | _ => inl (ZodError path)
  end.

(** The value [ProspectSchema.parse] returns. *)
Record Parsed : Type := mkParsed {
  p_tenantId : string;
  p_institutionName : string;
  p_domain : string;
  p_product : string;
  p_region : string;
  p_timezone : string;
  p_lms : string;
  p_score : Z;
  p_stage : string;
  p_wedges : list string;
  p_whyNow : string;
  p_currentTools : list string;
  p_ownerUid : option string;
  p_ownerName : option string;
  p_status : option string;
  p_priority : option string;
  p_lastContactedAt : option (string + Q);
  p_nextStep : option string;
  p_nextStepDueAt : option (string + Q);
  p_contacts : option (list Contact);
  p_signals : option (list Signal)
}.

Definition products : list string := ["verity"; "panorama"; "lumina"].
Definition stages : list string := ["P1"; "nurture"; "research"; "hold"].
Definition statuses : list string :=
  ["new"; "working"; "replied"; "qualified"; "disqualified"].
Definition priorities : list string := ["A"; "B"; "C"].

(** [ProspectSchema.parse(o)] for an object with own properties [o]; keys
    are checked in the order of the schema and unknown keys are dropped. *)
Definition ProspectSchema_parse (o : list (string * json)) : result Parsed :=
  tenantId ← Zod.string_min 1 "tenantId" (jget o "tenantId");
  institutionName ← Zod.string_min 2 "institutionName" (jget o "institutionName");
  domain ← (fun s => JS.toLowerCase (JS.trim s)) <$> Zod.string_ "domain" (jget o "domain");
  product ← Zod.enum products "product" (jget o "product");
  region ← Zod.string_default "" "region" (jget o "region");
  timezone ← Zod.string_default "" "timezone" (jget o "timezone");
  lms ← Zod.string_default "" "lms" (jget o "lms");
  score ← Zod.int_range_default 0 100 0 "score" (jget o "score");
  stage ← Zod.enum_default stages "research" "stage" (jget o "stage");
  wedges ← Zod.string_array_default "wedges" (jget o "wedges");
  whyNow ← Zod.string_default "" "whyNow" (jget o "whyNow");
  currentTools ← Zod.string_array_default "currentTools" (jget o "currentTools");
  ownerUid ← Zod.optional Zod.string_ "ownerUid" (jget o "ownerUid");
  ownerName ← Zod.optional Zod.string_ "ownerName" (jget o "ownerName");
  status ← Zod.optional (Zod.enum_default statuses "new") "status" (jget o "status");
  priority ← Zod.optional (Zod.enum_default priorities "B") "priority" (jget o "priority");
  lastContactedAt ← Zod.optional Zod.string_or_number "lastContactedAt" (jget o "lastContactedAt");
  nextStep ← Zod.optional (Zod.string_default "") "nextStep" (jget o "nextStep");
  nextStepDueAt ← Zod.optional Zod.string_or_number "nextStepDueAt" (jget o "nextStepDueAt");
  contacts ← Zod.optional (Zod.array ContactSchema) "contacts" (jget o "contacts");
  signals ← Zod.optional (Zod.array SignalSchema) "signals" (jget o "signals");
  inr (mkParsed tenantId institutionName domain product region timezone lms score
         stage wedges whyNow currentTools ownerUid ownerName status priority
         lastContactedAt nextStep nextStepDueAt contacts signals).

(** Line 87: [ProspectSchema.parse({ ...raw, product: (raw.product||"").toLowerCase() })]. *)
Definition fold_product (raw : json) : result string :=
  match raw with
  | JNull => inl TypeError
  | _ =>
      match jget (own_fields raw) "product" with
      | None | Some JNull | Some (JBool false) | Some (JStr "") => inr ""
      | Some (JStr s) => inr (JS.toLowerCase s)
      | Some (JNum q) => if Qeq_bool q 0 then inr "" else inl TypeError
      | Some _ => inl TypeError
      end
  end.

Definition prepare (raw : json) : result Parsed :=
  product ← fold_product raw;
  ProspectSchema_parse (("product", JStr product) :: own_fields raw).

(* ===================================================================== *)
(** ** Round-robin owner assignment *)
(* ===================================================================== *)

(** [q.docs.map(d => ({ uid: d.id, ...d.data() }))] *)
Definition role_entries (s : store) : list Owner :=
  (fun '(id, d) =>
     mkOwner id (rd_tenants d) (rd_regions d) (rd_email d) (rd_displayName d))
  <$> roles s.

(** [r.tenants && (r.tenants[tenantId] === "sdr" || r.tenants[tenantId] === "admin")] *)
Definition grants (tenantId : string) (r : Owner) : bool :=
  match tenants r with
  | Some m =>
      bool_decide (m !! tenantId = Some "sdr")
      || bool_decide (m !! tenantId = Some "admin")
  | None => false
  end.

(** [!r.regions || r.regions.includes(region) || r.regions.includes("ALL")] *)
Definition region_ok (region : string) (r : Owner) : bool :=
  match regions r with
  | None => true
  | Some l => JS.includes l region || JS.includes l "ALL"
  end.

(** The predicate of the [filter] in [pickOwner]. *)
Definition eligible (tenantId region : string) (r : Owner) : bool :=
  grants tenantId r && region_ok region r.

Definition resolvePool (tenantId region : string) (s : store) : list Owner :=
  filter (fun r => eligible tenantId region r = true) (role_entries s).

(** [`${tenantId}__${region || "ANY"}`] *)
Definition rrId (tenantId region : string) : string :=
  (tenantId ++ "__" ++ JS.str_or region "ANY")%string.

(** [n || 0] on an integer. *)
Definition num_or_0 (n : Z) : Z := if n =? 0 then 0 else n.

(** Lines 60-61: the index selected given the cursor snapshot. *)
Definition next_index (snap : option Cursor) (poolLength : Z) : Z :=
  match snap with
  | None => 0
  | Some c => JS.rem (num_or_0 (lastIndex c) + 1) poolLength
  end.

(** Line 62: the merge-write of the cursor. [FieldValue.increment(1)] is
    applied by the server to the value stored at the time of the write. *)
Definition cursor_write (idx : Z) (tenantId region : string)
    (stored : option Cursor) : Cursor :=
  mkCursor idx
           (match stored with Some c => count c + 1 | None => 1 end)
           tenantId (JS.str_or region "ANY").

(** [pool[idx]]; [undefined] outside the array. *)
Definition at_index {A} (pool : list A) (idx : Z) : option A :=
  if idx <? 0 then None else pool !! Z.to_nat idx.

(** [pickOwner(tenantId, region)]: the value returned ([None] for [null] or
    [undefined]) and the store after the call. *)
Definition pickOwner (tenantId region : string) (s : store) : option Owner * store :=
  let pool := resolvePool tenantId region s in
  match pool with
  | [] => (None, s)
  | _ =>
      let id := rrId tenantId region in
      let snap := routing s !! id in
      let idx := next_index snap (Z.of_nat (length pool)) in
      let s' := set_routing s (<[id := cursor_write idx tenantId region (routing s !! id)]> (routing s)) in
      (at_index pool idx, s')
  end.

(** *** The same call, one storage operation at a time

    [pickOwner] awaits three storage operations: the query of [roles], the
    read of the cursor and the write of the cursor. Between two of them
    other calls may run. *)
Inductive pick_state : Type :=
| PickStart (tenantId region : string)
| PickHavePool (tenantId region : string) (pool : list Owner)
| PickHaveSnap (tenantId region : string) (pool : list Owner) (snap : option Cursor)
| PickDone (chosen : option Owner).

Definition pick_step (p : pick_state) (s : store) : pick_state * store :=
  match p with
  | PickStart t r =>
      match resolvePool t r s with
      | [] => (PickDone None, s)
      | pool => (PickHavePool t r pool, s)
      end
  | PickHavePool t r pool => (PickHaveSnap t r pool (routing s !! rrId t r), s)
  | PickHaveSnap t r pool snap =>
      let idx := next_index snap (Z.of_nat (length pool)) in
      (PickDone (at_index pool idx),
       set_routing s (<[rrId t r := cursor_write idx t r (routing s !! rrId t r)]> (routing s)))
  | PickDone c => (PickDone c, s)
  end.

(** Two calls in flight; the schedule says which one performs its next
    storage operation ([true] for the first). *)
Fixpoint run_two (sched : list bool) (a b : pick_state) (s : store)
    : pick_state * pick_state * store :=
  match sched with
  | [] => (a, b, s)
  | true :: rest => let '(a', s') := pick_step a s in run_two rest a' b s'
  | false :: rest => let '(b', s') := pick_step b s in run_two rest a b' s'
  end.

(** The index a call in state [PickHaveSnap] is about to select, and the
    [lastIndex] it read. *)
Definition read_lastIndex (p : pick_state) : option Z :=
  match p with
  | PickHaveSnap _ _ _ (Some c) => Some (lastIndex c)
  | _ => None
  end.

(** [k] consecutive calls of [pickOwner] for one scope: the values returned,
    in order, and the store at the end. *)
Fixpoint assign_many (k : nat) (tenantId region : string) (s : store)
    : list (option Owner) * store :=
  match k with
  | O => ([], s)
  | S k' =>
      let '(o, s') := pickOwner tenantId region s in
      let '(os, s'') := assign_many k' tenantId region s' in
      (o :: os, s'')
  end.

(* ===================================================================== *)
(** ** [importProspects] *)
(* ===================================================================== *)

(** [o || null] for an optional string: absent and empty are both falsy. *)
Definition truthy_string (o : option string) : option string :=
  match o with
  | Some EmptyString | None => None
  | Some s => Some s
  end.

Definition str_or_null (o : option string) : fval :=
  match truthy_string o with Some s => FStr s | None => FNull end.

(** [o || d] for an optional string [o] and a string [d]. *)
Definition opt_or (o : option string) (d : string) : string :=
  match o with Some s => JS.str_or s d | None => d end.

(** [new Date(n)] for a number: TimeClip, then truncation to an integer. *)
Definition Date_of_number (q : Q) : JS.jsnum :=
  if Qle_bool (Qabs q) (inject_Z JS.max_time)
  then Some (Z.quot (Qnum q) (Zpos (Qden q))) else None.

Section Functions.

Variable rt : Runtime.

(** [x ? new Date(x) : null] for a parsed string-or-number. *)
Definition date_or_null (v : option (string + Q)) : wval :=
  match v with
  | None => WVal FNull
  | Some (inl EmptyString) => WVal FNull
  | Some (inl s) => WDate (Date_parse rt s)
  | Some (inr q) => if Qeq_bool q 0 then WVal FNull else WDate (Date_of_number q)
  end.

(** Lines 102-123: the object handed to [batch.set(base, ..., { merge: true })]. *)
Definition prospect_fields (parsed : Parsed) (ownerUid ownerName : fval) : wdoc :=
  list_to_map [
    ("tenantId", WVal (FStr (p_tenantId parsed)));
    ("institutionName", WVal (FStr (p_institutionName parsed)));
    ("domain", WVal (FStr (p_domain parsed)));
    ("product", WVal (FStr (p_product parsed)));
    ("region", WVal (FStr (p_region parsed)));
    ("timezone", WVal (FStr (p_timezone parsed)));
    ("lms", WVal (FStr (p_lms parsed)));
    ("score", WVal (FInt (p_score parsed)));
    ("stage", WVal (FStr (p_stage parsed)));
    ("wedges", WVal (FArr (p_wedges parsed)));
    ("whyNow", WVal (FStr (p_whyNow parsed)));
    ("currentTools", WVal (FArr (p_currentTools parsed)));
    ("ownerUid", WVal ownerUid);
    ("ownerName", WVal ownerName);
    ("status", WVal (FStr (opt_or (p_status parsed) "new")));
    ("priority", WVal (FStr (opt_or (p_priority parsed) "B")));
    ("lastContactedAt", date_or_null (p_lastContactedAt parsed));
    ("nextStep", WVal (FStr (opt_or (p_nextStep parsed) "")));
    ("nextStepDueAt", date_or_null (p_nextStepDueAt parsed));
    ("createdAt", WServerTimestamp);
    ("updatedAt", WServerTimestamp)
  ].

(** The keys of that object. *)
Definition prospect_keys : list string :=
  ["tenantId"; "institutionName"; "domain"; "product"; "region"; "timezone";
   "lms"; "score"; "stage"; "wedges"; "whyNow"; "currentTools"; "ownerUid";
   "ownerName"; "status"; "priority"; "lastContactedAt"; "nextStep";
   "nextStepDueAt"; "createdAt"; "updatedAt"].

Definition opt_field (k : string) (o : option string) : list (string * wval) :=
  match o with Some s => [(k, WVal (FStr s))] | None => [] end.

(** Line 127: [{ ...c, createdAt: FieldValue.serverTimestamp() }] *)
Definition contact_fields (c : Contact) : wdoc :=
  list_to_map ([("name", WVal (FStr (ct_name c)))]
               ++ opt_field "title" (ct_title c) ++ opt_field "email" (ct_email c)
               ++ opt_field "phone" (ct_phone c) ++ opt_field "role" (ct_role c)
               ++ [("createdAt", WServerTimestamp)]).

(** Line 132: [{ ...s, date: s.date ? new Date(s.date) : null, createdAt: ... }] *)
Definition signal_fields (g : Signal) : wdoc :=
  list_to_map ([("type", WVal (FStr (sg_type g))); ("title", WVal (FStr (sg_title g)));
                ("date", match truthy_string (sg_date g) with
                         | Some d => WDate (Date_parse rt d)
                         | None => WVal FNull
                         end)]
               ++ opt_field "source" (sg_source g)
               ++ [("createdAt", WServerTimestamp)]).

(** Line 136: the audit record. *)
Definition audit_fields (tenantId id caller : string) : wdoc :=
  list_to_map [("type", WVal (FStr "import")); ("tenantId", WVal (FStr tenantId));
               ("prospectId", WVal (FStr id)); ("by", WVal (FStr caller));
               ("at", WServerTimestamp)].

(** Lines 92-100: the owner written for a record, and the store after the
    assignment (if one was made). *)
Definition assign_owner (parsed : Parsed) (s : store) : fval * fval * store :=
  match truthy_string (p_ownerUid parsed) with
  | Some u => (FStr u, str_or_null (p_ownerName parsed), s)
  | None =>
      match pickOwner (p_tenantId parsed) (p_region parsed) s with
      | (Some chosen, s') =>
          (FStr (uid chosen),
           FStr (opt_or (displayName chosen) (opt_or (email chosen) (uid chosen))),
           s')
      | (None, s') => (FNull, str_or_null (p_ownerName parsed), s')
      end
  end.

(** The writes staged for one record (lines 102-136), in order. *)
Definition record_writes (caller : string) (parsed : Parsed) (ownerUid ownerName : fval)
    : list write :=
  let id := normalizeId (p_domain parsed) (p_product parsed) in
  let base := (p_tenantId parsed, id) in
  [WSetMerge base (prospect_fields parsed ownerUid ownerName)]
  ++ map (fun c => WAddContact base (contact_fields c)) (default [] (p_contacts parsed))
  ++ map (fun g => WAddSignal base (signal_fields g)) (default [] (p_signals parsed))
  ++ [WAddAudit (audit_fields (p_tenantId parsed) id caller)].

(** The state of the [for] loop of lines 86-138: the store (changed only by
    the cursor writes of [pickOwner]), the stores that were current after
    each iteration, the batch and the counter. *)
Record loop_state : Type := mkLoop {
  ls_store : store;
  ls_seen : list store;
  ls_batch : list write;
  ls_count : Z
}.

Fixpoint import_loop (caller : string) (items : list json) (st : loop_state)
    : loop_state * option error :=
  match items with
  | [] => (st, None)
  | raw :: rest =>
      match prepare raw with
      | inl e => (st, Some e)
      | inr parsed =>
          let '(ownerUid, ownerName, s') := assign_owner parsed (ls_store st) in
          import_loop caller rest
            (mkLoop s' (ls_seen st ++ [s'])
                    (ls_batch st ++ record_writes caller parsed ownerUid ownerName)
                    (ls_count st + 1))
      end
  end.

(** Lines 73-81: the items of the request. *)
Definition items_of (body : json) : result (list json) :=
  match body with
  | JStr text =>
      match csv_parse rt text with Some records => inr records | None => inl CsvError end
  | JArr l => inr l
  | JObj _ => inr [body]
  | _ => inr []
  end.

(** [!body] *)
Definition falsy (v : option json) : bool :=
  match v with
  | None | Some JNull | Some (JBool false) | Some (JStr EmptyString) => true
  | Some (JNum q) => Qeq_bool q 0
  | _ => false
  end.

(** What a call leaves behind: the store at the end, every store that was
    current at some point during the call (in order, the last one being the
    store at the end), and the response or the error thrown. *)
Record outcome : Type := mkOutcome {
  final : store;
  observed : list store;
  response : result Z
}.

(** [importProspects]: [auth] is [request.auth?.uid], [data] is
    [request.data], [ct] the server time of the commit. *)
Definition importProspects (auth : option string) (data : option json)
    (ct : Timestamp) (s : store) : outcome :=
  match truthy_string auth with
  | None => mkOutcome s [s] (inl AuthRequired)
  | Some caller =>
      if falsy data then mkOutcome s [s] (inl NoData) else
      match items_of (default JNull data) with
      | inl e => mkOutcome s [s] (inl e)
      | inr items =>
          match import_loop caller items (mkLoop s [s] [] 0) with
          | (st, Some e) => mkOutcome (ls_store st) (ls_seen st) (inl e)
          | (st, None) =>
              match commit ct (ls_batch st) (ls_store st) with
              | None => mkOutcome (ls_store st) (ls_seen st) (inl CommitFailure)
              | Some s' => mkOutcome s' (ls_seen st ++ [s']) (inr (ls_count st))
              end
          end
      end
  end.

(* ===================================================================== *)
(** ** [setUserRoleByEmail] *)
(* ===================================================================== *)

(** The fields of [request.data] the function destructures. *)
Record RoleRequest : Type := mkRoleRequest {
  rq_email : option string;
  rq_tenants : option (gmap string string);
  rq_regions : option (list string);
  rq_displayName : option string
}.

Fixpoint find_role (id : string) (l : list (string * RoleDoc)) : option RoleDoc :=
  match l with
  | [] => None
  | (k, d) :: rest => if String.eqb id k then Some d else find_role id rest
  end.

(** Writing the document [id] of [roles]: replaced in place if it exists,
    otherwise inserted at its place in the order of ids. *)
Fixpoint put_role (id : string) (d : RoleDoc) (l : list (string * RoleDoc))
    : list (string * RoleDoc) :=
  match l with
  | [] => [(id, d)]
  | (k, d') :: rest =>
      if String.eqb id k then (id, d) :: rest
      else if String.ltb id k then (id, d) :: (k, d') :: rest
      else (k, d') :: put_role id d rest
  end.

(** [{ merge: true }] on the map field [tenants]: a non-empty map is merged
    key by key into the stored one, an empty map replaces it. *)
Definition merge_tenants (new : gmap string string) (old : option (gmap string string))
    : gmap string string :=
  if decide (new = ∅) then ∅ else new ∪ default ∅ old.

(** Line 156: the document of [roles] after
    [ref.set({ tenants, regions: regions || [], email, displayName: ... }, { merge: true })]. *)
Definition role_write (rq_t : gmap string string) (rq_r : option (list string))
    (mail : string) (name : string) (old : option RoleDoc) : RoleDoc :=
  mkRoleDoc (Some (merge_tenants rq_t (old ≫= rd_tenants)))
            (Some (default [] rq_r))
            (Some mail)
            (Some name).

Definition is_global_admin (caller : string) (s : store) : bool :=
  match find_role caller (roles s) ≫= rd_tenants with
  | Some m => bool_decide (m !! "global" = Some "admin")
  | None => false
  end.

(** [setUserRoleByEmail]: the store after the call and the uid returned. *)
Definition setUserRoleByEmail (auth : option string) (rq : RoleRequest) (s : store)
    : store * result string :=
  match truthy_string auth with
  | None => (s, inl AuthRequired)
  | Some caller =>
      if negb (is_global_admin caller s) then (s, inl GlobalAdminOnly) else
      match truthy_string (rq_email rq), rq_tenants rq with
      | Some mail, Some ts =>
          match getUserByEmail rt mail with
          | None => (s, inl UserNotFound)
          | Some user =>
              let name := opt_or (rq_displayName rq) (opt_or (u_displayName user) mail) in
              let d := role_write ts (rq_regions rq) mail name (find_role (u_uid user) (roles s)) in
              (set_roles s (put_role (u_uid user) d (roles s)), inr (u_uid user))
          end
      | _, _ => (s, inl EmailTenantsRequired)
      end
  end.

(* ===================================================================== *)
(** ** [recalculateScores] *)
(* ===================================================================== *)

(** Truthiness of a field read from a document; [None] is [undefined]. *)
Definition truthy (v : option fval) : bool :=
  match v with
  | None | Some FNull | Some FNaN | Some (FStr EmptyString) => false
  | Some (FInt z) => negb (z =? 0)
  | Some _ => true
  end.

(** [Number(v)] *)
Definition Number (v : fval) : JS.jsnum :=
  match v with
  | FNull => Some 0
  | FInt z => Some z
  | FNaN => None
  | FStr s => StringToNumber rt s
  | FArr l => StringToNumber rt (String.concat "," l)
  | FTime t => StringToNumber rt (Timestamp_toString rt t)
  end.

(** Line 168: [Number(p.score || 0)] *)
Definition read_score (p : doc) : JS.jsnum :=
  Number (if truthy (p !! "score") then default (FInt 0) (p !! "score") else FInt 0).

(** Line 169: [null], or the time value of the [Date] built from
    [p.lastContactedAt] ([Some None] is an invalid [Date]). A Timestamp
    whose [seconds] is truthy is converted as [seconds * 1000]; any other
    truthy value goes to [new Date(value)] as it is. *)
Definition read_last (p : doc) : option JS.jsnum :=
  if truthy (p !! "lastContactedAt") then
    match p !! "lastContactedAt" with
    | Some (FTime t) =>
        if negb (seconds t =? 0) then Some (JS.TimeClip (seconds t * 1000))
        else Some (Date_parse rt (Timestamp_toString rt t))
    | Some (FInt z) => Some (JS.TimeClip z)
    | Some (FStr s) => Some (Date_parse rt s)
    | Some (FArr l) => Some (Date_parse rt (String.concat "," l))
    | _ => None
    end
  else None.

Definition ms_per_day : Z := 1000 * 60 * 60 * 24.

(** Lines 170-173: the score after the decay rule. *)
Definition decayed_score (now : Z) (p : doc) : JS.jsnum :=
  let score := read_score p in
  match read_last p with
  | Some last =>
      let days := JS.floor_div (JS.sub (Some now) last) ms_per_day in
      if JS.ge days (Some 3) then JS.Math_max (Some 0) (JS.sub score (Some 2)) else score
  | None => score
  end.

(** Lines 175-178: the stage; the value read from [p.stage] is assigned over
    in every branch. *)
Definition stage_of (score : JS.jsnum) : string :=
  if JS.ge score (Some 80) then "P1"
  else if JS.ge score (Some 60) then "nurture"
  else "research".

Definition num_val (n : JS.jsnum) : fval :=
  match n with Some z => FInt z | None => FNaN end.

(** Line 180: the object handed to [batch.update]; [stamp] is the time
    value of the [new Date()] evaluated there. *)
Definition recalc_fields (now stamp : Z) (p : doc) : wdoc :=
  let score := decayed_score now p in
  list_to_map [("score", WVal (num_val score));
               ("stage", WVal (FStr (stage_of score)));
               ("updatedAt", WDate (Some stamp))].

(** The batch built by [snap.forEach]: one update per prospect document;
    [clock k] is what [new Date()] returns in the iteration for document [k]. *)
Definition recalc_batch (now : Z) (clock : pkey -> Z) (s : store) : list write :=
  (fun '(k, p) => WUpdate k (recalc_fields now (clock k) p))
  <$> map_to_list (prospects s).

(** [recalculateScores]: [now] is the time value of line 164. *)
Definition recalculateScores (now : Z) (clock : pkey -> Z) (ct : Timestamp) (s : store)
    : store * option error :=
  match commit ct (recalc_batch now clock s) s with
  | Some s' => (s', None)
  | None => (s, Some CommitFailure)
  end.

End Functions.

(** The contact time of the data model in epoch milliseconds, at the
    precision it is stored with. *)
Definition Timestamp_toMillis (t : Timestamp) : Z :=
  seconds t * 1000 + nanoseconds t / 1000000.

(** [floor((now - lastContactedAt) / 1 day)] as the specification writes
    it, on the stored contact time. *)
Definition daysSinceContact (now : Z) (t : Timestamp) : Z :=
  (now - Timestamp_toMillis t) / ms_per_day.

(* ===================================================================== *)
(** ** Vocabulary of the statements *)
(* ===================================================================== *)

(** Two stores with the same documents everywhere except, possibly, in
    [routing]. *)
Definition same_data (a b : store) : Prop :=
  roles a = roles b /\ prospects a = prospects b /\ contacts a = contacts b
  /\ signals a = signals b /\ audit a = audit b.

(** The audit document as stored by a commit at server time [ct]. *)
Definition audit_doc (ct : Timestamp) (tenantId id caller : string) : doc :=
  list_to_map [("type", FStr "import"); ("tenantId", FStr tenantId);
               ("prospectId", FStr id); ("by", FStr caller); ("at", FTime ct)].

(** The audit writes of a batch, in order. *)
Definition audit_writes (batch : list write) : list wdoc :=
  omap (fun w => match w with WAddAudit d => Some d | _ => None end) batch.

(** The prospect documents a batch writes to. *)
Definition prospect_targets (batch : list write) : list pkey :=
  omap (fun w => match w with WSetMerge k _ | WUpdate k _ => Some k | _ => None end) batch.

Definition is_update (w : write) : bool :=
  match w with WUpdate _ _ => true | _ => false end.

Definition payload (w : write) : wdoc :=
  match w with
  | WSetMerge _ d | WUpdate _ d | WAddContact _ d | WAddSignal _ d | WAddAudit d => d
  end.

(** A record as staged: what [ProspectSchema.parse] returned and the owner
    fields written for it. *)
Abbreviation staged := (Parsed * fval * fval)%type.

Definition staged_id (x : staged) : pkey :=
  (p_tenantId x.1.1, normalizeId (p_domain x.1.1) (p_product x.1.1)).

(** Two writes that are not updates and that can be serialised under the
    same conditions. *)
Definition similar (w1 w2 : write) : Prop :=
  is_update w1 = false /\ is_update w2 = false
  /\ forall ct, is_Some (resolve_doc ct (payload w1)) <-> is_Some (resolve_doc ct (payload w2)).

(** The three fields of [recalc_fields] as stored, [stamp] being the
    Timestamp of the [Date] written to [updatedAt]. *)
Definition recalc_stored (rt : Runtime) (now : Z) (stamp : Timestamp) (p : doc) : doc :=
  list_to_map [("score", num_val (decayed_score rt now p));
               ("stage", FStr (stage_of (decayed_score rt now p)));
               ("updatedAt", FTime stamp)].

Definition writes_of (rt : Runtime) (caller : string) (x : staged) : list write :=
  record_writes rt caller x.1.1 x.1.2 x.2.

(* ===================================================================== *)
(** ** Further vocabulary *)
(* ===================================================================== *)

(** [s] contains the code unit [c]. *)
Fixpoint has_char (c : ascii) (s : string) : bool :=
  match s with
  | EmptyString => false
  | String a r => Ascii.eqb a c || has_char c r
  end.

(** A tenant id without underscore. *)
Definition no_underscore (s : string) : Prop := has_char "_" s = false.

(** The children of a batch as a commit stores them, in order. *)
Definition contact_writes (batch : list write) : list (pkey * wdoc) :=
  omap (fun w => match w with WAddContact k d => Some (k, d) | _ => None end) batch.

Definition signal_writes (batch : list write) : list (pkey * wdoc) :=
  omap (fun w => match w with WAddSignal k d => Some (k, d) | _ => None end) batch.

Definition resolve_child (ct : Timestamp) (x : pkey * wdoc) : option (pkey * doc) :=
  d ← resolve_doc ct x.2; Some (x.1, d).

(** A contact document as stored by a commit at server time [ct]. *)
Definition contact_doc (ct : Timestamp) (c : Contact) : doc :=
  omap (resolve_val ct) (contact_fields c).

(** The ids of [roles] are strictly increasing. *)
Definition sorted_ids (l : list (string * RoleDoc)) : Prop :=
  StronglySorted (fun x y => String.ltb x.1 y.1 = true) l.

(** The keys of the schema. *)
Definition schema_keys : list string :=
  ["tenantId"; "institutionName"; "domain"; "product"; "region"; "timezone";
   "lms"; "score"; "stage"; "wedges"; "whyNow"; "currentTools"; "ownerUid";
   "ownerName"; "status"; "priority"; "lastContactedAt"; "nextStep";
   "nextStepDueAt"; "contacts"; "signals"].

(** Successive runs of [recalculateScores], one per element of [nights]
    (the time of the run and its clock), stopping at a run that fails. *)
Fixpoint run_nights (rt : Runtime) (nights : list (Z * (pkey -> Z))) (ct : Timestamp)
    (s : store) : store :=
  match nights with
  | [] => s
  | (now, clock) :: rest =>
      match recalculateScores rt now clock ct s with
      | (s', None) => run_nights rt rest ct s'
      | (s', Some _) => s'
      end
  end.

(* ===================================================================== *)
(** ** Sample data *)
(* ===================================================================== *)

Module Example.

(** A runtime whose date and number parsers reject every string and whose
    user directory knows one address. *)
Definition rt : Runtime :=
  mkRuntime (fun _ => None) (fun _ => None) (fun _ => None) (fun _ => "")
            (fun mail => if String.eqb mail "eve@acme.test"
                         then Some (mkUser "u3" None) else None).

Definition sdr (tenant mail : string) : RoleDoc :=
  mkRoleDoc (Some {[ tenant := "sdr" ]}) None (Some mail) None.

Definition root_admin : RoleDoc :=
  mkRoleDoc (Some {[ "global" := "admin" ]}) (Some ["ALL"]) (Some "root@acme.test") None.

Definition no_roles : store := mkStore [] ∅ ∅ [] [] [].

(** Two representatives of tenant ["acme"], no cursor, nothing imported. *)
Definition two_sdrs : store :=
  mkStore [("u1", sdr "acme" "ann@acme.test"); ("u2", sdr "acme" "bob@acme.test")]
          ∅ ∅ [] [] [].

(** The same with the cursor of scope (acme, ANY) at index 0. *)
Definition two_sdrs_started : store :=
  set_routing two_sdrs {[ "acme__ANY" := mkCursor 0 1 "acme" "ANY" ]}.

Definition with_admin : store :=
  mkStore [("root", root_admin)] ∅ ∅ [] [] [].

Definition state_u (extra : list (string * json)) : json :=
  JObj ([("tenantId", JStr "acme"); ("institutionName", JStr "State U");
         ("domain", JStr "State.EDU "); ("product", JStr "Verity")] ++ extra).

(** What [prepare] returns for [state_u []]. *)
Definition state_u_parsed : Parsed :=
  mkParsed "acme" "State U" "state.edu" "verity" "" "" "" 0 "research" [] "" []
           None None None None None None None None None.

Definition unknown_product : json :=
  JObj [("tenantId", JStr "acme"); ("institutionName", JStr "Other U");
        ("domain", JStr "other.edu"); ("product", JStr "unknown")].

Definition t0 : Timestamp := mkTimestamp 1700000000 0.

(** A prospect with score 5, last contacted at second 1000, and three
    nightly runs 3, 4 and 5 days after the epoch second 1000. *)
Definition stale_contact : Timestamp := mkTimestamp 1000 0.

Definition stale_doc : doc :=
  {[ "score" := FInt 5; "lastContactedAt" := FTime stale_contact ]}.

Definition stale_store : store :=
  mkStore [] ∅ {[ ("acme", "a_verity") := stale_doc ]} [] [] [].

Definition night (d : Z) : Z * (pkey -> Z) :=
  (1000000 + d * ms_per_day, fun _ => 1000000 + d * ms_per_day).

End Example.

(* ===================================================================== *)
(** * Properties *)
(* ===================================================================== *)

(** ** Identity normalizer *)

Section NormalizeId.

Lemma is_space_lower_char c : JS.is_space (JS.lower_char c) = JS.is_space c.
Proof. destruct c as [[] [] [] [] [] [] [] []]; reflexivity. Qed.

Lemma lower_char_idem c : JS.lower_char (JS.lower_char c) = JS.lower_char c.
Proof. destruct c as [[] [] [] [] [] [] [] []]; reflexivity. Qed.

Lemma same_lower_same_space c d :
  JS.lower_char c = JS.lower_char d -> JS.is_space c = JS.is_space d.
Proof.
  intros E. rewrite <- (is_space_lower_char c), <- (is_space_lower_char d).
  now rewrite E.
Qed.

Lemma strip_lower_equiv d1 d2 :
  ws_case_equiv d1 d2 ->
  JS.toLowerCase (JS.strip_spaces d1) = JS.toLowerCase (JS.strip_spaces d2).
Proof.
  induction 1 as [| c s t Hc _ IH | c s t Hc _ IH | c d s t Hcd _ IH]; cbn.
  - reflexivity.
  - now rewrite Hc.
  - now rewrite Hc.
  - rewrite <- (same_lower_same_space _ _ Hcd).
    destruct (JS.is_space c); cbn; [assumption | now rewrite Hcd, IH].
Qed.

Lemma strip_spaces_clean s c :
  In c (list_ascii_of_string (JS.toLowerCase (JS.strip_spaces s))) ->
  JS.is_space c = false /\ JS.lower_char c = c.
Proof.
  induction s as [| a s IH]; cbn; [tauto |].
  destruct (JS.is_space a) eqn:Ha; cbn; [exact IH |].
  intros [<- | Hin]; [| now apply IH].
  split; [now rewrite is_space_lower_char | apply lower_char_idem].
Qed.

(** The part before the separator, code unit by code unit: the domain's
    code units that are not white space, each lower-cased, in order. *)
Lemma strip_lower_chars s :
  list_ascii_of_string (JS.toLowerCase (JS.strip_spaces s))
  = List.map JS.lower_char
      (List.filter (fun c => negb (JS.is_space c)) (list_ascii_of_string s)).
Proof.
  induction s as [| a s IH]; cbn; [reflexivity |].
  destruct (JS.is_space a); cbn; [exact IH | now rewrite IH].
Qed.

Lemma strip_lower_related s :
  ws_case_equiv s (JS.toLowerCase (JS.strip_spaces s)).
Proof.
  induction s as [| a s IH]; cbn; [constructor |].
  destruct (JS.is_space a) eqn:Ha; cbn.
  - now apply wce_skip_l.
  - apply wce_char; [now rewrite lower_char_idem | exact IH].
Qed.

End NormalizeId.

(** C6. [normalizeId] is a total function of its two arguments. Its value
    is a key followed by ["_"] and the product, where the key is the domain
    with every white-space code unit deleted and every remaining code unit
    lower-cased, in order: the key contains no white space and no capital
    and differs from the domain only in white space and letter case. Hence
    two domains that differ only in white space and letter case give the
    same identity for the same product. *)
Theorem normalizeId_ws_case_invariant (d1 d2 product : string) :
  ws_case_equiv d1 d2 ->
  normalizeId d1 product = normalizeId d2 product
  /\ exists key,
       normalizeId d1 product = (key ++ "_" ++ product)%string
       /\ list_ascii_of_string key
          = List.map JS.lower_char
              (List.filter (fun c => negb (JS.is_space c)) (list_ascii_of_string d1))
       /\ ws_case_equiv d1 key
       /\ forall c, In c (list_ascii_of_string key) ->
                    JS.is_space c = false /\ JS.lower_char c = c.
Proof.
  intros H. split.
  - unfold normalizeId. now rewrite (strip_lower_equiv _ _ H).
  - exists (JS.toLowerCase (JS.strip_spaces d1)). split; [reflexivity |].
    split; [apply strip_lower_chars |].
    split; [apply strip_lower_related |].
    apply strip_spaces_clean.
Qed.

(** The example of the specification: ["Example.EDU "] and ["example.edu"]. *)
Lemma normalizeId_ws_case_invariant_witness :
  ws_case_equiv "Example.EDU " "example.edu"
  /\ normalizeId "Example.EDU " "verity" = normalizeId "example.edu" "verity"
  /\ normalizeId "Example.EDU " "verity" = "example.edu_verity".
Proof.
  assert (H : ws_case_equiv "Example.EDU " "example.edu").
  { do 11 (apply wce_char; [reflexivity |]).
    apply wce_skip_l; [reflexivity | apply wce_nil]. }
  split; [exact H |].
  destruct (normalizeId_ws_case_invariant "Example.EDU " "example.edu" "verity" H)
    as (Heq & key & Hkey & Hchars & _).
  split; [exact Heq |].
  rewrite Hkey. f_equal.
  rewrite <- (string_of_list_ascii_of_string key), Hchars. reflexivity.
Defined.

(** ** Round-robin assignment *)

Section RoundRobin.

Lemma resolvePool_set_routing t r s x :
  resolvePool t r (set_routing s x) = resolvePool t r s.
Proof. reflexivity. Qed.

Lemma at_index_nat {A} (pool : list A) (j : nat) :
  at_index pool (Z.of_nat j) = pool !! j.
Proof.
  unfold at_index. destruct (Z.ltb_spec (Z.of_nat j) 0); [lia |].
  now rewrite Nat2Z.id.
Qed.

Lemma pickOwner_first t r s :
  resolvePool t r s <> [] ->
  routing s !! rrId t r = None ->
  pickOwner t r s =
    (resolvePool t r s !! 0%nat,
     set_routing s (<[rrId t r := mkCursor 0 1 t (JS.str_or r "ANY")]> (routing s))).
Proof.
  intros Hne Hnone. unfold pickOwner.
  destruct (resolvePool t r s) as [| o pool] eqn:E; [congruence |].
  rewrite Hnone. reflexivity.
Qed.

Lemma pickOwner_next t r s c :
  resolvePool t r s <> [] ->
  routing s !! rrId t r = Some c ->
  0 <= lastIndex c ->
  let n := Z.of_nat (length (resolvePool t r s)) in
  let i := (lastIndex c + 1) mod n in
  pickOwner t r s =
    (resolvePool t r s !! Z.to_nat i,
     set_routing s (<[rrId t r := mkCursor i (count c + 1) t (JS.str_or r "ANY")]> (routing s))).
Proof.
  intros Hne Hc Hli n i. unfold pickOwner.
  destruct (resolvePool t r s) as [| o pool] eqn:E; [congruence |].
  rewrite Hc. cbn [next_index cursor_write].
  assert (Hn : 0 < n) by (subst n; cbn [length]; lia).
  assert (Hi : JS.rem (num_or_0 (lastIndex c) + 1) n = i).
  { unfold JS.rem, num_or_0. subst i.
    destruct (lastIndex c =? 0) eqn:Ez.
    - apply Z.eqb_eq in Ez. rewrite Ez. apply Z.rem_mod_nonneg; lia.
    - apply Z.rem_mod_nonneg; lia. }
  fold n. rewrite Hi.
  assert (0 <= i < n) by (subst i; apply Z.mod_pos_bound; lia).
  unfold at_index. destruct (Z.ltb_spec i 0); [lia |]. reflexivity.
Qed.

(** From a cursor at [li], [k] calls select the indices [li+1], [li+2], ...
    modulo the pool size, and leave the cursor at the last one with the
    counter advanced by [k]. *)
Lemma assign_many_from t r : forall k s c,
  resolvePool t r s <> [] ->
  routing s !! rrId t r = Some c ->
  0 <= lastIndex c ->
  let pool := resolvePool t r s in
  let n := Z.of_nat (length pool) in
  fst (assign_many k t r s)
    = map (fun j => pool !! Z.to_nat ((lastIndex c + 1 + Z.of_nat j) mod n)) (seq 0 k)
  /\ resolvePool t r (snd (assign_many k t r s)) = pool
  /\ exists c', routing (snd (assign_many k t r s)) !! rrId t r = Some c'
       /\ count c' = count c + Z.of_nat k
       /\ 0 <= lastIndex c'
       /\ (lastIndex c' + 1) mod n = (lastIndex c + 1 + Z.of_nat k) mod n.
Proof.
  induction k as [| k IH]; intros s c Hne Hc Hli pool n.
  - cbn. split; [reflexivity |]. split; [reflexivity |].
    exists c. repeat split; try assumption; try lia. f_equal; lia.
  - assert (Hn : 0 < n) by (subst n pool; destruct (resolvePool t r s); cbn [length]; [congruence | lia]).
    cbn [assign_many]. rewrite (pickOwner_next t r s c Hne Hc Hli).
    fold pool n.
    set (i := (lastIndex c + 1) mod n).
    set (s' := set_routing s _).
    assert (Hpool' : resolvePool t r s' = pool) by reflexivity.
    assert (Hc' : routing s' !! rrId t r = Some (mkCursor i (count c + 1) t (JS.str_or r "ANY"))).
    { subst s'. cbn. apply lookup_insert_eq. }
    assert (Hi : 0 <= i < n) by (subst i; apply Z.mod_pos_bound; lia).
    specialize (IH s' _ ltac:(rewrite Hpool'; exact Hne) Hc' ltac:(cbn; lia)).
    cbn [lastIndex count] in IH. rewrite Hpool' in IH. fold n in IH.
    destruct (assign_many k t r s') as [os s''] eqn:Em. cbn [fst snd] in *.
    destruct IH as (Hos & Hp & c' & Hc'' & Hcnt & Hli' & Hmod).
    split; [| split; [exact Hp |]].
    + cbn [seq map]. f_equal.
      * subst i. do 3 f_equal. lia.
      * rewrite Hos. rewrite <- seq_shift, map_map.
        apply map_ext. intros j. do 2 f_equal.
        replace (i + 1 + Z.of_nat j) with (i + (1 + Z.of_nat j)) by lia.
        subst i. rewrite Zplus_mod_idemp_l. f_equal. lia.
    + exists c'. repeat split; try assumption; try lia.
      rewrite Hmod.
      replace (i + 1 + Z.of_nat k) with (i + (1 + Z.of_nat k)) by lia.
      subst i. rewrite Zplus_mod_idemp_l. f_equal. lia.
Qed.

Lemma lookup_seq_all {A} (pool : list A) :
  map (fun j => pool !! j) (seq 0 (length pool)) = map Some pool.
Proof.
  induction pool as [| a pool IH]; [reflexivity |].
  cbn [length seq map]. f_equal.
  rewrite <- seq_shift, map_map. exact IH.
Qed.

(** From a scope without cursor, the [j]-th call (counting from 0) returns
    the pool member at index [j mod n]. *)
Lemma assign_many_fresh t r s k :
  resolvePool t r s <> [] ->
  routing s !! rrId t r = None ->
  let pool := resolvePool t r s in
  let n := Z.of_nat (length pool) in
  fst (assign_many k t r s)
    = map (fun j => pool !! Z.to_nat (Z.of_nat j mod n)) (seq 0 k)
  /\ resolvePool t r (snd (assign_many k t r s)) = pool
  /\ (k <> 0%nat ->
      exists c, routing (snd (assign_many k t r s)) !! rrId t r = Some c
        /\ count c = Z.of_nat k /\ 0 <= lastIndex c
        /\ (lastIndex c + 1) mod n = Z.of_nat k mod n).
Proof.
  intros Hne Hnone pool n.
  destruct k as [| k]; [cbn; repeat split; congruence |].
  assert (Hn : 0 < n) by (subst n pool; destruct (resolvePool t r s); cbn [length]; [congruence | lia]).
  cbn [assign_many]. rewrite (pickOwner_first t r s Hne Hnone). fold pool.
  set (s' := set_routing s _).
  assert (Hpool' : resolvePool t r s' = pool) by reflexivity.
  assert (Hc' : routing s' !! rrId t r = Some (mkCursor 0 1 t (JS.str_or r "ANY"))).
  { subst s'. cbn. apply lookup_insert_eq. }
  pose proof (assign_many_from t r k s' _ ltac:(rewrite Hpool'; exact Hne) Hc' ltac:(cbn; lia)) as IH.
  cbn [lastIndex count] in IH. rewrite Hpool' in IH. fold n in IH.
  destruct (assign_many k t r s') as [os s''] eqn:Em. cbn [fst snd] in *.
  destruct IH as (Hos & Hp & c' & Hc'' & Hcnt & Hli' & Hmod).
  split; [| split; [exact Hp |]].
  - cbn [seq map]. f_equal.
    rewrite Hos, <- seq_shift, map_map. apply map_ext. intros j.
    do 3 f_equal. lia.
  - intros _. exists c'. repeat split; try assumption; try lia.
    rewrite Hmod. f_equal. lia.
Qed.

End RoundRobin.

(** C3. For a scope without cursor and a non-empty pool of [N] members:
    the first call selects index 0; every later call selects
    [(storedIndex + 1) mod N] and stores that index with the counter
    incremented; [N] consecutive calls return the pool members in pool
    order, each once, and call [N+1] returns the first member again. *)
Theorem round_robin_cycle (t r : string) (s : store) :
  resolvePool t r s <> [] ->
  routing s !! rrId t r = None ->
  let pool := resolvePool t r s in
  let N := length pool in
  fst (pickOwner t r s) = pool !! 0%nat
  /\ (forall k, k <> 0%nat ->
        let sk := snd (assign_many k t r s) in
        exists c, routing sk !! rrId t r = Some c
          /\ let i := (lastIndex c + 1) mod Z.of_nat N in
             fst (pickOwner t r sk) = pool !! Z.to_nat i
             /\ routing (snd (pickOwner t r sk)) !! rrId t r
                = Some (mkCursor i (count c + 1) t (JS.str_or r "ANY")))
  /\ fst (assign_many N t r s) = map Some pool
  /\ fst (assign_many (S N) t r s) = (map Some pool ++ [head pool])%list
  /\ (NoDup (roles s).*1 -> NoDup (uid <$> pool)).
Proof.
  intros Hne Hnone pool N.
  assert (HN : 0 < Z.of_nat N).
  { subst N pool. destruct (resolvePool t r s); cbn [length]; [congruence | lia]. }
  assert (Hcycle : forall k, (k <= N)%nat ->
            map (fun j => pool !! Z.to_nat (Z.of_nat j mod Z.of_nat N)) (seq 0 k)
            = map (fun j => pool !! j) (seq 0 k)).
  { intros k Hk. apply map_ext_in. intros j Hj. apply in_seq in Hj.
    rewrite Z.mod_small by lia. now rewrite Nat2Z.id. }
  split; [| split; [| split; [| split]]].
  - rewrite (pickOwner_first t r s Hne Hnone). reflexivity.
  - intros k Hk sk.
    destruct (assign_many_fresh t r s k Hne Hnone) as (_ & Hp & Hc).
    destruct (Hc Hk) as (c & Hc1 & _ & Hli & _).
    exists c. split; [exact Hc1 |]. fold sk in Hp, Hc1.
    assert (Hne' : resolvePool t r sk <> []) by (rewrite Hp; exact Hne).
    rewrite (pickOwner_next t r sk c Hne' Hc1 Hli). rewrite Hp. fold pool N.
    split; [reflexivity |]. cbn. apply lookup_insert_eq.
  - destruct (assign_many_fresh t r s N Hne Hnone) as (-> & _ & _).
    fold pool N. rewrite Hcycle by lia. apply lookup_seq_all.
  - destruct (assign_many_fresh t r s (S N) Hne Hnone) as (-> & _ & _).
    fold pool N. rewrite seq_S, map_app. f_equal.
    + rewrite Hcycle by lia. apply lookup_seq_all.
    + cbn [map Nat.add]. rewrite Z_mod_same_full. cbn.
      now destruct pool.
  - intros Hnd. subst pool. unfold resolvePool.
    assert (E : uid <$> role_entries s = (roles s).*1).
    { unfold role_entries. rewrite <- list_fmap_compose.
      apply list_fmap_ext. now intros i [id d]. }
    apply (sublist_NoDup _ (uid <$> role_entries s));
      [rewrite E; exact Hnd | apply fmap_sublist, sublist_filter].
Qed.

(** Two representatives: the first three calls return the first, the
    second and the first again. *)
Lemma round_robin_cycle_witness :
  (resolvePool "acme" "" Example.two_sdrs <> []
   /\ routing Example.two_sdrs !! rrId "acme" "" = None)
  /\ fst (assign_many (S (length (resolvePool "acme" "" Example.two_sdrs)))
                      "acme" "" Example.two_sdrs)
     = (map Some (resolvePool "acme" "" Example.two_sdrs)
        ++ [head (resolvePool "acme" "" Example.two_sdrs)])%list.
Proof.
  assert (H1 : resolvePool "acme" "" Example.two_sdrs <> []) by (vm_compute; discriminate).
  assert (H2 : routing Example.two_sdrs !! rrId "acme" "" = None) by (vm_compute; reflexivity).
  split; [split; assumption |].
  exact (proj1 (proj2 (proj2 (proj2 (round_robin_cycle "acme" "" Example.two_sdrs H1 H2))))).
Defined.

(** ** Batches *)

Section Commit.

Variable ct : Timestamp.

Lemma resolve_doc_lookup d d' k :
  resolve_doc ct d = Some d' -> d' !! k = d !! k ≫= resolve_val ct.
Proof.
  unfold resolve_doc. case_decide; [| discriminate]. intros [= <-].
  apply lookup_omap.
Qed.

Lemma resolve_doc_is_Some d :
  is_Some (resolve_doc ct d) <-> map_Forall (fun _ v => is_Some (resolve_val ct v)) d.
Proof.
  unfold resolve_doc. case_decide as Hd; split; intros H'.
  - exact Hd.
  - eauto.
  - destruct H' as [? [=]].
  - contradiction.
Qed.

Lemma resolve_audit_fields t id c :
  resolve_doc ct (audit_fields t id c) = Some (audit_doc ct t id c).
Proof. vm_compute. reflexivity. Qed.

Lemma commit_app b1 b2 s :
  commit ct (b1 ++ b2) s = commit ct b1 s ≫= commit ct b2.
Proof.
  revert s. induction b1 as [| w b1 IH]; intros s; cbn; [reflexivity |].
  destruct (apply_write ct s w); cbn; [apply IH | reflexivity].
Qed.

(** What one write leaves alone. *)
Lemma apply_write_frame s w s' :
  apply_write ct s w = Some s' ->
  roles s' = roles s /\ routing s' = routing s
  /\ (forall k, is_Some (prospects s !! k) -> is_Some (prospects s' !! k))
  /\ (forall k, k ∉ prospect_targets [w] -> prospects s' !! k = prospects s !! k)
  /\ audit s' = audit s ++ omap (resolve_doc ct) (audit_writes [w]).
Proof.
  destruct w as [k d | k d | k d | k d | d]; cbn;
    destruct (resolve_doc ct d) as [d' |] eqn:Ed; cbn; try discriminate.
  - intros [= <-]; cbn. repeat split; try (now rewrite app_nil_r).
    + intros k' Hk'. destruct (decide (k = k')) as [-> | Hne];
        [rewrite lookup_insert_eq; eauto | now rewrite lookup_insert_ne].
    + intros k' Hk'. rewrite lookup_insert_ne; [reflexivity |].
      intros ->. apply Hk'. now left.
  - destruct (prospects s !! k) as [old |] eqn:Eo; cbn; [| discriminate].
    intros [= <-]; cbn. repeat split; try (now rewrite app_nil_r).
    + intros k' Hk'. destruct (decide (k = k')) as [-> | Hne];
        [rewrite lookup_insert_eq; eauto | now rewrite lookup_insert_ne].
    + intros k' Hk'. rewrite lookup_insert_ne; [reflexivity |].
      intros ->. apply Hk'. now left.
  - intros [= <-]; cbn. repeat split; auto; now rewrite app_nil_r.
  - intros [= <-]; cbn. repeat split; auto; now rewrite app_nil_r.
  - intros [= <-]; cbn. repeat split; auto.
Qed.

Lemma prospect_targets_cons w b :
  prospect_targets (w :: b) = prospect_targets [w] ++ prospect_targets b.
Proof. now destruct w. Qed.

Lemma audit_writes_cons w b :
  audit_writes (w :: b) = audit_writes [w] ++ audit_writes b.
Proof. now destruct w. Qed.

Lemma audit_writes_app b1 b2 :
  audit_writes (b1 ++ b2) = audit_writes b1 ++ audit_writes b2.
Proof. apply omap_app. Qed.

Lemma commit_frame b : forall s s',
  commit ct b s = Some s' ->
  roles s' = roles s /\ routing s' = routing s
  /\ (forall k, is_Some (prospects s !! k) -> is_Some (prospects s' !! k))
  /\ (forall k, k ∉ prospect_targets b -> prospects s' !! k = prospects s !! k)
  /\ audit s' = audit s ++ omap (resolve_doc ct) (audit_writes b).
Proof.
  induction b as [| w b IH]; intros s s'; cbn [commit].
  - intros [= <-]. cbn. rewrite app_nil_r. repeat split; auto.
  - destruct (apply_write ct s w) as [s1 |] eqn:E1; cbn [mbind option_bind]; [| discriminate].
    intros H. apply apply_write_frame in E1 as (R1 & G1 & P1 & Q1 & A1).
    apply IH in H as (R2 & G2 & P2 & Q2 & A2).
    repeat split; try congruence; auto.
    + intros k Hk. rewrite prospect_targets_cons in Hk.
      rewrite Q2, Q1; [reflexivity | |];
        intros Hin; apply Hk; apply elem_of_app; [now left | now right].
    + rewrite A2, A1, <- app_assoc. f_equal.
      now rewrite (audit_writes_cons w b), omap_app.
Qed.

(** A merge-set in a committed batch leaves its target existing. *)
Lemma commit_target_exists b : forall s s' k d,
  commit ct b s = Some s' -> WSetMerge k d ∈ b -> is_Some (prospects s' !! k).
Proof.
  induction b as [| w b IH]; intros s s' k d; cbn [commit].
  - intros _ Hin. inversion Hin.
  - destruct (apply_write ct s w) as [s1 |] eqn:E1; cbn; [| discriminate].
    intros H Hin. apply elem_of_cons in Hin as [<- | Hin].
    + apply (proj1 (proj2 (proj2 (commit_frame _ _ _ H)))).
      cbn in E1. destruct (resolve_doc ct d); cbn in E1; [| discriminate].
      injection E1 as <-. cbn. rewrite lookup_insert_eq. eauto.
    + eapply IH; eassumption.
Qed.

(** A batch without [update] commits exactly when each of its documents
    can be serialised. *)
Lemma commit_sets_is_Some b : forall s,
  Forall (fun w => is_update w = false) b ->
  (is_Some (commit ct b s) <-> Forall (fun w => is_Some (resolve_doc ct (payload w))) b).
Proof.
  induction b as [| w b IH]; intros s Hb; cbn [commit].
  - split; eauto.
  - inversion Hb as [| ? ? Hw Hb']; subst.
    destruct w as [k d | k d | k d | k d | d]; try discriminate; cbn;
      (destruct (resolve_doc ct d) as [d' |] eqn:Ed; cbn;
       [ rewrite IH by assumption; split;
         [ intros H; constructor; [cbn; rewrite Ed; eauto | exact H]
         | intros H; now inversion H ]
       | split; [intros [? [=]] | intros H; inversion H as [| ? ? [? Hd] _]; subst;
                                  cbn in Hd; congruence ] ]).
Qed.

End Commit.

(** ** The import loop *)

Section ImportLoop.

Variable rt : Runtime.

Lemma same_data_refl s : same_data s s.
Proof. repeat split. Qed.

Lemma same_data_trans a b c : same_data a b -> same_data b c -> same_data a c.
Proof. unfold same_data. intuition congruence. Qed.

Lemma same_data_set_routing s x : same_data s (set_routing s x).
Proof. repeat split. Qed.

(** [pickOwner] writes nothing but the cursor of its scope. *)
Lemma pickOwner_same_data t r s : same_data s (snd (pickOwner t r s)).
Proof.
  unfold pickOwner. destruct (resolvePool t r s); cbn;
    [apply same_data_refl | apply same_data_set_routing].
Qed.

Lemma pickOwner_other_scope t r s id :
  id <> rrId t r -> routing (snd (pickOwner t r s)) !! id = routing s !! id.
Proof.
  intros Hne. unfold pickOwner. destruct (resolvePool t r s); cbn; [reflexivity |].
  now rewrite lookup_insert_ne.
Qed.

Lemma assign_owner_same_data parsed s :
  same_data s (assign_owner parsed s).2.
Proof.
  unfold assign_owner. destruct (truthy_string (p_ownerUid parsed)); cbn;
    [apply same_data_refl |].
  pose proof (pickOwner_same_data (p_tenantId parsed) (p_region parsed) s) as H.
  destruct (pickOwner (p_tenantId parsed) (p_region parsed) s) as [[o |] s']; exact H.
Qed.

(** The loop either stops at a record that [prepare] rejects, or stages
    the writes of every record in order; in both cases the stores it goes
    through differ from the first one in [routing] only. *)
Lemma import_loop_spec caller items : forall st st' e,
  import_loop rt caller items st = (st', e) ->
  same_data (ls_store st) (ls_store st')
  /\ (exists extra, ls_seen st' = ls_seen st ++ extra
                    /\ Forall (same_data (ls_store st)) extra)
  /\ match e with
     | Some err => exists raw, raw ∈ items /\ prepare raw = inl err
     | None =>
         exists recs : list staged,
           Forall2 (fun raw x => prepare raw = inr x.1.1) items recs
           /\ ls_batch st' = ls_batch st ++ concat (writes_of rt caller <$> recs)
           /\ ls_count st' = ls_count st + Z.of_nat (length items)
     end.
Proof.
  induction items as [| raw items IH]; intros st st' e; cbn [import_loop].
  - intros [= <- <-]. split; [apply same_data_refl |]. split.
    + exists []. now rewrite app_nil_r.
    + exists []. cbn. rewrite app_nil_r, Z.add_0_r. repeat split. constructor.
  - destruct (prepare raw) as [err | parsed] eqn:Ep.
    + intros [= <- <-]. split; [apply same_data_refl |]. split.
      * exists []. now rewrite app_nil_r.
      * exists raw. split; [now left | exact Ep].
    + pose proof (assign_owner_same_data parsed (ls_store st)) as Hsd.
      destruct (assign_owner parsed (ls_store st)) as [[u n] s1]. cbn in Hsd.
      intros H. apply IH in H as (Hs & (extra & Hseen & Hall) & He). cbn in Hs, Hseen, Hall, He.
      split; [eapply same_data_trans; eassumption |]. split.
      * exists (s1 :: extra). split; [now rewrite Hseen, <- app_assoc |].
        constructor; [exact Hsd |].
        eapply Forall_impl; [exact Hall |].
        intros x Hx. eapply same_data_trans; eassumption.
      * destruct e as [err |].
        -- destruct He as (raw' & Hin & Hp). exists raw'. split; [now right | exact Hp].
        -- destruct He as (recs & HF & Hb & Hc).
           exists ((parsed, u, n) :: recs). split; [constructor; [exact Ep | exact HF] |].
           split; [rewrite Hb, <- app_assoc; reflexivity |].
           rewrite Hc. cbn [length]. lia.
Qed.

Lemma import_loop_rejects caller items st :
  Exists (fun raw => exists err, prepare raw = inl err) items ->
  exists err, (import_loop rt caller items st).2 = Some err.
Proof.
  intros Hex.
  destruct (import_loop rt caller items st) as [st' e] eqn:E.
  apply import_loop_spec in E as (_ & _ & He).
  destruct e as [err |]; [eauto |].
  destruct He as (recs & HF & _). exfalso.
  apply Exists_exists in Hex as (raw & Hin & err & Herr).
  apply list_elem_of_lookup in Hin as [i Hi].
  destruct (Forall2_lookup_l _ _ _ _ _ HF Hi) as (x & _ & Hx). congruence.
Qed.

End ImportLoop.

(** ** Rejected input *)

(** A batch whose second record has [product = "unknown"], imported where
    two representatives are eligible and no cursor exists: the call throws
    the validation error of the second record, and the cursor written by the
    assignment for the first record is there afterwards. No prospect and no
    audit record is written. *)
Lemma import_rejected_keeps_cursor_write :
  let s := Example.two_sdrs in
  let o := importProspects Example.rt (Some "caller")
             (Some (JArr [Example.state_u []; Example.unknown_product]))
             Example.t0 s in
  prepare Example.unknown_product = inl (ZodError "product")
  /\ response o = inl (ZodError "product")
  /\ routing s !! "acme__ANY" = None
  /\ routing (final o) !! "acme__ANY" = Some (mkCursor 0 1 "acme" "ANY")
  /\ final o <> s
  /\ prospects (final o) = prospects s /\ audit (final o) = audit s.
Proof.
  cbv zeta. repeat split; try (vm_compute; reflexivity).
  intros E. apply (f_equal (fun x => routing x !! "acme__ANY")) in E.
  vm_compute in E. discriminate.
Qed.

(** C1, as the code has it. If a record of the call is rejected by
    [prepare] (the product folding and [ProspectSchema.parse] of line 87),
    the call fails, and every store that is current during or after the call
    has the roles, prospects, contacts, signals and audit records of the
    store before the call: only [routing] may differ. *)
Theorem import_rejected_no_data_write (rt : Runtime) (auth : option string)
    (data : option json) (ct : Timestamp) (s : store) (items : list json) :
  falsy data = false ->
  items_of rt (default JNull data) = inr items ->
  Exists (fun raw => exists err, prepare raw = inl err) items ->
  let o := importProspects rt auth data ct s in
  (exists err, response o = inl err)
  /\ same_data s (final o)
  /\ Forall (same_data s) (observed o).
Proof.
  intros Hdata Hitems Hex o. subst o. unfold importProspects.
  destruct (truthy_string auth) as [caller |].
  2: { cbn. repeat split; eauto. constructor; [apply same_data_refl | constructor]. }
  rewrite Hdata, Hitems.
  destruct (import_loop_rejects rt caller items (mkLoop s [s] [] 0) Hex) as [err Herr].
  destruct (import_loop rt caller items (mkLoop s [s] [] 0)) as [st e] eqn:E.
  cbn in Herr. subst e.
  apply import_loop_spec in E as (Hs & (extra & Hseen & Hall) & _).
  cbn in Hs, Hseen, Hall. cbn. split; [eauto |]. split; [exact Hs |].
  rewrite Hseen. constructor; [apply same_data_refl | exact Hall].
Qed.

Lemma import_rejected_no_data_write_witness :
  let data := Some (JArr [Example.state_u []; Example.unknown_product]) in
  let o := importProspects Example.rt (Some "caller") data Example.t0 Example.two_sdrs in
  Exists (fun raw => exists err, prepare raw = inl err)
         [Example.state_u []; Example.unknown_product]
  /\ same_data Example.two_sdrs (final o).
Proof.
  cbv zeta.
  assert (H : Exists (fun raw => exists err, prepare raw = inl err)
                     [Example.state_u []; Example.unknown_product]).
  { apply Exists_cons_tl, Exists_cons_hd. eexists. vm_compute. reflexivity. }
  split; [exact H |].
  exact (proj1 (proj2 (import_rejected_no_data_write Example.rt (Some "caller")
           (Some (JArr [Example.state_u []; Example.unknown_product]))
           Example.t0 Example.two_sdrs _ eq_refl eq_refl H))).
Defined.

(** ** Audit trail *)

Section Audit.

Variable rt : Runtime.

Lemma audit_writes_record caller parsed u n :
  audit_writes (record_writes rt caller parsed u n)
  = [audit_fields (p_tenantId parsed)
       (normalizeId (p_domain parsed) (p_product parsed)) caller].
Proof.
  unfold record_writes. rewrite !audit_writes_app. cbn.
  assert (H1 : forall k l, audit_writes (map (fun c => WAddContact k (contact_fields c)) l) = [])
    by (intros k l; induction l; auto).
  assert (H2 : forall k l, audit_writes (map (fun g => WAddSignal k (signal_fields rt g)) l) = [])
    by (intros k l; induction l; auto).
  now rewrite H1, H2.
Qed.

Lemma audit_writes_staged caller (recs : list staged) :
  audit_writes (concat (writes_of rt caller <$> recs))
  = (fun x => audit_fields (staged_id x).1 (staged_id x).2 caller) <$> recs.
Proof.
  induction recs as [| [[p u] n] recs IH]; [reflexivity |].
  cbn [fmap list_fmap concat]. rewrite audit_writes_app, IH.
  unfold writes_of at 1. now rewrite audit_writes_record.
Qed.

Lemma resolve_audit_staged ct caller (recs : list staged) :
  omap (resolve_doc ct)
       ((fun x => audit_fields (staged_id x).1 (staged_id x).2 caller) <$> recs)
  = (fun x => audit_doc ct (staged_id x).1 (staged_id x).2 caller) <$> recs.
Proof.
  induction recs as [| x recs IH]; [reflexivity |].
  cbn [fmap list_fmap omap list_omap]. rewrite resolve_audit_fields.
  f_equal. exact IH.
Qed.

Lemma staged_target_in_batch caller (recs : list staged) x :
  x ∈ recs ->
  exists d, WSetMerge (staged_id x) d ∈ concat (writes_of rt caller <$> recs).
Proof.
  induction recs as [| y recs IH]; intros Hin; [inversion Hin |].
  apply elem_of_cons in Hin as [<- | Hin].
  - eexists. cbn [fmap list_fmap concat]. apply elem_of_app. left.
    unfold writes_of, record_writes. apply elem_of_app. left. apply list_elem_of_singleton.
    reflexivity.
  - destruct (IH Hin) as [d Hd]. exists d.
    cbn [fmap list_fmap concat]. apply elem_of_app. now right.
Qed.

End Audit.

(** C5. A call that returns [{ ok: true, count }] has staged, for the
    records of the request in order, exactly one audit write each, of type
    ["import"], naming the record's tenant, its prospect id and the caller;
    these writes are in the one batch that also holds the prospects' own
    writes, and that batch is applied by a single commit: the audit
    collection grows by exactly these records, every prospect written exists,
    and every store that is current during the call either is the store
    after the commit or still has the prospects, children and audit records
    of the store before the call. *)
Theorem import_audit_same_commit (rt : Runtime) (auth : option string)
    (data : option json) (ct : Timestamp) (s : store) (n : Z) :
  let o := importProspects rt auth data ct s in
  response o = inr n ->
  exists (caller : string) (items : list json) (recs : list staged) (s1 : store),
    truthy_string auth = Some caller
    /\ items_of rt (default JNull data) = inr items
    /\ n = Z.of_nat (length items)
    /\ Forall2 (fun raw x => prepare raw = inr x.1.1) items recs
    /\ same_data s s1
    /\ commit ct (concat (writes_of rt caller <$> recs)) s1 = Some (final o)
    /\ audit_writes (concat (writes_of rt caller <$> recs))
       = (fun x => audit_fields (staged_id x).1 (staged_id x).2 caller) <$> recs
    /\ audit (final o)
       = audit s ++ ((fun x => audit_doc ct (staged_id x).1 (staged_id x).2 caller) <$> recs)
    /\ Forall (fun x => is_Some (prospects (final o) !! staged_id x)) recs
    /\ Forall (fun x => x = final o \/ same_data s x) (observed o).
Proof.
  intros o. subst o. unfold importProspects.
  destruct (truthy_string auth) as [caller |]; [| discriminate].
  destruct (falsy data); [discriminate |].
  destruct (items_of rt (default JNull data)) as [err | items]; [discriminate |].
  destruct (import_loop rt caller items (mkLoop s [s] [] 0)) as [st e] eqn:E.
  apply import_loop_spec in E as (Hs & (extra & Hseen & Hall) & He).
  cbn in Hs, Hseen, Hall.
  destruct e as [err |]; [discriminate |].
  destruct He as (recs & HF & Hb & Hc). cbn in Hb, Hc.
  destruct (commit ct (ls_batch st) (ls_store st)) as [s' |] eqn:Ec; [| discriminate].
  cbn. intros [= <-].
  exists caller, items, recs, (ls_store st). rewrite Hb in Ec.
  pose proof (commit_frame ct _ _ _ Ec) as (_ & _ & _ & _ & Ha).
  repeat split; try assumption; try apply Hs; try lia.
  - apply audit_writes_staged.
  - rewrite Ha, audit_writes_staged, resolve_audit_staged.
    destruct Hs as (_ & _ & _ & _ & <-). reflexivity.
  - apply Forall_forall. intros x Hx.
    destruct (staged_target_in_batch rt caller recs x Hx) as [d Hd].
    eapply commit_target_exists; eassumption.
  - rewrite Hseen. constructor; [right; apply same_data_refl |].
    apply Forall_app_2.
    + eapply Forall_impl; [exact Hall |]. intros x Hx. now right.
    + constructor; [now left | constructor].
Qed.

Lemma import_audit_same_commit_witness :
  let o := importProspects Example.rt (Some "caller")
             (Some (JArr [Example.state_u []; Example.state_u [("score", JNum 90)]]))
             Example.t0 Example.two_sdrs in
  response o = inr 2
  /\ exists recs : list staged,
       length recs = 2%nat
       /\ audit (final o)
          = audit Example.two_sdrs
            ++ ((fun x => audit_doc Example.t0 (staged_id x).1 (staged_id x).2 "caller")
                <$> recs).
Proof.
  cbv zeta.
  assert (H : response (importProspects Example.rt (Some "caller")
             (Some (JArr [Example.state_u []; Example.state_u [("score", JNum 90)]]))
             Example.t0 Example.two_sdrs) = inr 2) by (vm_compute; reflexivity).
  split; [exact H |].
  destruct (import_audit_same_commit _ _ _ _ _ _ H)
    as (c & it & recs & s1 & Hc & _ & Hn & HF & _ & _ & _ & Ha & _).
  injection Hc as <-. exists recs. split; [| exact Ha].
  apply Forall2_length in HF. lia.
Defined.

(** ** One record *)

Section OneRecord.

Variable rt : Runtime.

Lemma prospect_fields_None parsed u n k :
  k ∉ prospect_keys -> prospect_fields rt parsed u n !! k = None.
Proof. intros H. apply not_elem_of_list_to_map. exact H. Qed.

Lemma prospect_fields_Some parsed u n k :
  k ∈ prospect_keys -> is_Some (prospect_fields rt parsed u n !! k).
Proof.
  intros H. unfold prospect_keys in H.
  repeat (apply elem_of_cons in H as [-> | H]; [eexists; reflexivity |]).
  inversion H.
Qed.

(** The prospect document can be serialised exactly when its two dates can;
    the owner fields play no part. *)
Lemma prospect_fields_resolvable ct parsed u n :
  is_Some (resolve_doc ct (prospect_fields rt parsed u n))
  <-> is_Some (resolve_val ct (date_or_null rt (p_lastContactedAt parsed)))
      /\ is_Some (resolve_val ct (date_or_null rt (p_nextStepDueAt parsed))).
Proof.
  rewrite resolve_doc_is_Some. split.
  - intros H. split.
    + apply (H "lastContactedAt"). reflexivity.
    + apply (H "nextStepDueAt"). reflexivity.
  - intros [H1 H2] k v Hk. apply elem_of_list_to_map_2 in Hk.
    repeat (apply elem_of_cons in Hk as [Hk | Hk];
            [injection Hk as -> ->; first [exact H1 | exact H2 | cbn; eauto] |]).
    inversion Hk.
Qed.

Lemma similar_refl w : is_update w = false -> similar w w.
Proof. intros H. repeat split; auto. Qed.

Lemma record_writes_similar caller parsed u n u' n' :
  Forall2 similar (record_writes rt caller parsed u n)
                  (record_writes rt caller parsed u' n').
Proof.
  unfold record_writes. apply Forall2_app.
  - constructor; [| constructor].
    split; [reflexivity | split; [reflexivity |]].
    intros ct. cbn [payload]. now rewrite !prospect_fields_resolvable.
  - apply Forall2_app; [| apply Forall2_app].
    + induction (default [] (p_contacts parsed)); constructor;
        [now apply similar_refl | assumption].
    + induction (default [] (p_signals parsed)); constructor;
        [now apply similar_refl | assumption].
    + constructor; [now apply similar_refl | constructor].
Qed.

Lemma prospect_targets_record caller parsed u n :
  exists rest,
    record_writes rt caller parsed u n
    = WSetMerge (p_tenantId parsed, normalizeId (p_domain parsed) (p_product parsed))
                (prospect_fields rt parsed u n) :: rest
    /\ prospect_targets rest = [].
Proof.
  eexists. split; [reflexivity |].
  unfold prospect_targets. rewrite !omap_app. cbn.
  assert (H1 : forall k (l : list Contact),
             omap (fun w => match w with WSetMerge k _ | WUpdate k _ => Some k | _ => None end)
                  (map (fun c => WAddContact k (contact_fields c)) l) = [])
    by (intros k l; induction l; auto).
  assert (H2 : forall k (l : list Signal),
             omap (fun w => match w with WSetMerge k _ | WUpdate k _ => Some k | _ => None end)
                  (map (fun g => WAddSignal k (signal_fields rt g)) l) = [])
    by (intros k l; induction l; auto).
  now rewrite H1, H2.
Qed.

(** The effect of a successful call with a single record on the prospect
    collection: the document of the record's identity becomes the fields
    written, merged over what was stored; no other prospect changes. *)
Lemma import_single auth caller data ct s raw parsed n :
  truthy_string auth = Some caller ->
  falsy data = false ->
  items_of rt (default JNull data) = inr [raw] ->
  prepare raw = inr parsed ->
  response (importProspects rt auth data ct s) = inr n ->
  let o := importProspects rt auth data ct s in
  let key := (p_tenantId parsed, normalizeId (p_domain parsed) (p_product parsed)) in
  let a := assign_owner parsed s in
  n = 1
  /\ routing (final o) = routing a.2
  /\ (exists d', resolve_doc ct (prospect_fields rt parsed a.1.1 a.1.2) = Some d'
        /\ prospects (final o) !! key = Some (d' ∪ default ∅ (prospects s !! key)))
  /\ (forall k', k' <> key -> prospects (final o) !! k' = prospects s !! k').
Proof.
  intros Hauth Hdata Hitems Hprep. cbv zeta. unfold importProspects.
  rewrite Hauth, Hdata, Hitems. cbn [import_loop]. rewrite Hprep.
  cbn [ls_batch ls_store ls_count ls_seen].
  pose proof (assign_owner_same_data parsed s) as Hsd.
  destruct (assign_owner parsed s) as [[u nm] s1]. cbn [fst snd] in *.
  cbn [ls_batch ls_store ls_count ls_seen app].
  destruct (prospect_targets_record caller parsed u nm) as (rest & -> & Hrest).
  cbn [commit apply_write].
  destruct (resolve_doc ct (prospect_fields rt parsed u nm)) as [d' |] eqn:Ed;
    cbn [mbind option_bind]; [| discriminate].
  match goal with |- context [commit ct rest ?x] => set (s2 := x) end.
  destruct (commit ct rest s2) as [s' |] eqn:Ec; [| discriminate].
  cbn [response final]. intros [= <-].
  pose proof (commit_frame ct _ _ _ Ec) as (_ & Hg & _ & Hp & _).
  rewrite Hrest in Hp.
  destruct Hsd as (_ & Hpr & _).
  split; [reflexivity |]. split; [exact Hg |]. split.
  - exists d'. split; [reflexivity |].
    rewrite Hp by (intros Hin; inversion Hin).
    subst s2. cbn. rewrite lookup_insert_eq, Hpr. reflexivity.
  - intros k' Hk'. rewrite Hp by (intros Hin; inversion Hin).
    subst s2. cbn. rewrite lookup_insert_ne by congruence. now rewrite Hpr.
Qed.

End OneRecord.

(** ** The response does not depend on the store *)

Section Independence.

Variable rt : Runtime.

Lemma import_loop_similar caller items : forall st1 st2,
  ls_count st1 = ls_count st2 ->
  Forall2 similar (ls_batch st1) (ls_batch st2) ->
  let r1 := import_loop rt caller items st1 in
  let r2 := import_loop rt caller items st2 in
  r1.2 = r2.2 /\ ls_count r1.1 = ls_count r2.1
  /\ Forall2 similar (ls_batch r1.1) (ls_batch r2.1).
Proof.
  induction items as [| raw items IH]; intros st1 st2 Hc Hb; cbn [import_loop].
  - cbn. auto.
  - destruct (prepare raw) as [err | parsed]; [cbn; auto |].
    destruct (assign_owner parsed (ls_store st1)) as [[u1 n1] s1].
    destruct (assign_owner parsed (ls_store st2)) as [[u2 n2] s2].
    apply IH; cbn; [congruence |].
    apply Forall2_app; [exact Hb | apply record_writes_similar].
Qed.

Lemma commit_similar ct b1 b2 s1 s2 :
  Forall2 similar b1 b2 ->
  (is_Some (commit ct b1 s1) <-> is_Some (commit ct b2 s2)).
Proof.
  intros H.
  rewrite !commit_sets_is_Some.
  - induction H as [| w1 w2 b1 b2 (_ & _ & Hw) _ IH]; [split; constructor |].
    split; intros HF; inversion HF; subst; constructor;
      try (now apply Hw); now apply IH.
  - induction H as [| w1 w2 b1 b2 (_ & Hu & _) _ IH]; constructor; assumption.
  - induction H as [| w1 w2 b1 b2 (Hu & _ & _) _ IH]; constructor; assumption.
Qed.

(** Whether a call succeeds, and with which count or error, is the same in
    every store: in particular it does not depend on who is eligible. *)
Lemma import_response_any_store auth data ct s1 s2 :
  response (importProspects rt auth data ct s1)
  = response (importProspects rt auth data ct s2).
Proof.
  unfold importProspects.
  destruct (truthy_string auth) as [caller |]; [| reflexivity].
  destruct (falsy data); [reflexivity |].
  destruct (items_of rt (default JNull data)) as [err | items]; [reflexivity |].
  pose proof (import_loop_similar caller items (mkLoop s1 [s1] [] 0) (mkLoop s2 [s2] [] 0)
                eq_refl ltac:(constructor)) as (He & Hc & Hb).
  destruct (import_loop rt caller items (mkLoop s1 [s1] [] 0)) as [st1 e1].
  destruct (import_loop rt caller items (mkLoop s2 [s2] [] 0)) as [st2 e2].
  cbn [fst snd] in *. subst e2.
  destruct e1 as [err |]; [reflexivity |].
  pose proof (commit_similar ct _ _ (ls_store st1) (ls_store st2) Hb) as Hiff.
  destruct (commit ct (ls_batch st1) (ls_store st1)) as [t1 |];
    destruct (commit ct (ls_batch st2) (ls_store st2)) as [t2 |]; cbn.
  - now rewrite Hc.
  - destruct (proj1 Hiff ltac:(eauto)) as [? [=]].
  - destruct (proj2 Hiff ltac:(eauto)) as [? [=]].
  - reflexivity.
Qed.

End Independence.

(** ** The eligible pool *)

Section Pool.

Lemma includes_elem_of l x : JS.includes l x = true <-> x ∈ l.
Proof.
  unfold JS.includes. rewrite existsb_exists, list_elem_of_In. split.
  - intros (y & Hy & E). apply String.eqb_eq in E. now subst.
  - intros H. exists x. split; [assumption | apply String.eqb_refl].
Qed.

Lemma grants_spec t o :
  grants t o = true
  <-> exists m, tenants o = Some m /\ (m !! t = Some "sdr" \/ m !! t = Some "admin").
Proof.
  unfold grants. destruct (tenants o) as [m |].
  - rewrite orb_true_iff, !bool_decide_eq_true. split; [eauto |].
    now intros (m' & [= <-] & H).
  - split; [discriminate | now intros (m & [=] & _)].
Qed.

Lemma region_ok_spec r o :
  region_ok r o = true
  <-> regions o = None \/ exists l, regions o = Some l /\ (r ∈ l \/ "ALL" ∈ l).
Proof.
  unfold region_ok. destruct (regions o) as [l |].
  - rewrite orb_true_iff, !includes_elem_of. split.
    + intros H. right. eauto.
    + intros [[=] | (l' & [= <-] & H)]. exact H.
  - split; auto.
Qed.

Lemma resolvePool_spec t r s o :
  o ∈ resolvePool t r s
  <-> o ∈ role_entries s
      /\ (exists m, tenants o = Some m /\ (m !! t = Some "sdr" \/ m !! t = Some "admin"))
      /\ (regions o = None \/ exists l, regions o = Some l /\ (r ∈ l \/ "ALL" ∈ l)).
Proof.
  unfold resolvePool, eligible. rewrite list_elem_of_filter, andb_true_iff.
  rewrite grants_spec, region_ok_spec. tauto.
Qed.

Lemma pickOwner_empty t r s :
  resolvePool t r s = [] -> pickOwner t r s = (None, s).
Proof. intros H. unfold pickOwner. now rewrite H. Qed.

Lemma find_put_role id d l : find_role id (put_role id d l) = Some d.
Proof.
  induction l as [| [k d'] l IH]; cbn.
  - now rewrite String.eqb_refl.
  - destruct (String.eqb id k) eqn:E; cbn; [now rewrite String.eqb_refl |].
    destruct (String.ltb id k); cbn; [now rewrite String.eqb_refl |].
    now rewrite E.
Qed.

Lemma elem_of_put_role id d l : (id, d) ∈ put_role id d l.
Proof.
  induction l as [| [k d'] l IH]; cbn; [now left |].
  destruct (String.eqb id k); [now left |].
  destruct (String.ltb id k); [now left | now right].
Qed.

End Pool.

(** C7. The pool of [pickOwner] for [(tenantId, region)] consists of exactly
    the entries of [roles] whose [tenants] map gives ["sdr"] or ["admin"] for
    the tenant and whose [regions] field is absent, or lists the region, or
    lists ["ALL"]. When no entry qualifies, [pickOwner] returns [null]
    without writing; whether an import call succeeds is the same in every
    store, so an empty pool never makes it fail; and a record without owner
    imported where the pool is empty is stored with [ownerUid = null]. *)
Theorem eligible_pool_exact_and_degrades (rt : Runtime) (t r : string) (s : store) :
  (forall o,
     o ∈ resolvePool t r s
     <-> o ∈ role_entries s
         /\ (exists m, tenants o = Some m /\ (m !! t = Some "sdr" \/ m !! t = Some "admin"))
         /\ (regions o = None \/ exists l, regions o = Some l /\ (r ∈ l \/ "ALL" ∈ l)))
  /\ (resolvePool t r s = [] -> pickOwner t r s = (None, s))
  /\ (forall auth data ct s2,
        response (importProspects rt auth data ct s)
        = response (importProspects rt auth data ct s2))
  /\ (forall auth caller data ct raw parsed n,
        resolvePool t r s = [] ->
        truthy_string auth = Some caller ->
        falsy data = false ->
        items_of rt (default JNull data) = inr [raw] ->
        prepare raw = inr parsed ->
        p_tenantId parsed = t -> p_region parsed = r ->
        truthy_string (p_ownerUid parsed) = None ->
        response (importProspects rt auth data ct s) = inr n ->
        let o := importProspects rt auth data ct s in
        routing (final o) = routing s
        /\ exists d,
             prospects (final o) !! (t, normalizeId (p_domain parsed) (p_product parsed))
             = Some d
             /\ d !! "ownerUid" = Some FNull).
Proof.
  split; [apply resolvePool_spec |]. split; [apply pickOwner_empty |].
  split; [intros; apply import_response_any_store |].
  intros auth caller data ct raw parsed n Hpool Hauth Hdata Hitems Hprep Ht Hr Hown Hresp.
  destruct (import_single rt auth caller data ct s raw parsed n Hauth Hdata Hitems Hprep Hresp)
    as (_ & Hrout & (d' & Hd' & Hlook) & _).
  unfold assign_owner in Hrout, Hd'. rewrite Hown, Ht, Hr in Hrout, Hd'.
  rewrite (pickOwner_empty t r s Hpool) in Hrout, Hd'. cbn [fst snd] in Hrout, Hd'.
  cbv zeta. split; [exact Hrout |].
  rewrite Ht in Hlook. eexists. split; [exact Hlook |].
  apply lookup_union_Some_l.
  rewrite (resolve_doc_lookup ct _ _ "ownerUid" Hd'). reflexivity.
Qed.

(** A record for tenant ["acme"] imported where [roles] is empty. *)
Lemma eligible_pool_exact_and_degrades_witness :
  let s := Example.no_roles in
  let o := importProspects Example.rt (Some "caller") (Some (Example.state_u []))
             Example.t0 s in
  (resolvePool "acme" "" s = [] /\ response o = inr 1)
  /\ exists d, prospects (final o) !! ("acme", "state.edu_verity") = Some d
               /\ d !! "ownerUid" = Some FNull.
Proof.
  cbv zeta.
  assert (H1 : resolvePool "acme" "" Example.no_roles = []) by reflexivity.
  assert (H2 : response (importProspects Example.rt (Some "caller")
                 (Some (Example.state_u [])) Example.t0 Example.no_roles) = inr 1)
    by (vm_compute; reflexivity).
  split; [split; assumption |].
  assert (Ep : prepare (Example.state_u []) = inr Example.state_u_parsed)
    by (vm_compute; reflexivity).
  exact (proj2 (proj2 (proj2 (proj2
    (eligible_pool_exact_and_degrades Example.rt "acme" "" Example.no_roles)))
    (Some "caller") "caller" (Some (Example.state_u [])) Example.t0
    (Example.state_u []) Example.state_u_parsed 1 H1 eq_refl eq_refl eq_refl Ep
    eq_refl eq_refl eq_refl H2)).
Defined.


(** C10. An entry of [roles] whose [regions] field is an empty array is in
    no pool, whatever the tenant and the region; [setUserRoleByEmail] always
    writes a [regions] array, the empty one when the request has none, so
    the entry it writes for a request without regions is never eligible. *)
Theorem empty_regions_never_eligible (rt : Runtime) :
  (forall o t r s, regions o = Some [] -> o ∉ resolvePool t r s)
  /\ (forall auth rq s id,
        (setUserRoleByEmail rt auth rq s).2 = inr id ->
        let s' := (setUserRoleByEmail rt auth rq s).1 in
        exists d,
          (id, d) ∈ roles s'
          /\ find_role id (roles s') = Some d
          /\ rd_regions d = Some (default [] (rq_regions rq))
          /\ (rq_regions rq = None ->
              forall t r s'',
                mkOwner id (rd_tenants d) (rd_regions d) (rd_email d) (rd_displayName d)
                ∉ resolvePool t r s'')).
Proof.
  assert (H1 : forall o t r s, regions o = Some [] -> o ∉ resolvePool t r s).
  { intros o t r s Hreg Hin. apply resolvePool_spec in Hin as (_ & _ & [Hn | (l & Hl & Hin)]).
    - congruence.
    - rewrite Hreg in Hl. injection Hl as <-. destruct Hin as [Hin | Hin]; inversion Hin. }
  split; [exact H1 |].
  intros auth rq s id. unfold setUserRoleByEmail.
  destruct (truthy_string auth) as [caller |]; [| discriminate].
  destruct (is_global_admin caller s); cbn [negb]; [| discriminate].
  destruct (truthy_string (rq_email rq)) as [mail |]; [| discriminate].
  destruct (rq_tenants rq) as [ts |]; [| discriminate].
  destruct (getUserByEmail rt mail) as [user |]; [| discriminate].
  cbn [fst snd]. intros [= <-]. cbv zeta. cbn [roles set_roles].
  eexists. split; [apply elem_of_put_role |]. split; [apply find_put_role |].
  split; [reflexivity |].
  intros Hnone t r s''. apply H1. cbn. now rewrite Hnone.
Qed.

(** The global admin gives Eve the role [sdr] for ["acme"] without naming
    regions: her document gets [regions = []]. *)
Lemma empty_regions_never_eligible_witness :
  let rq := mkRoleRequest (Some "eve@acme.test") (Some {[ "acme" := "sdr" ]}) None None in
  let res := setUserRoleByEmail Example.rt (Some "root") rq Example.with_admin in
  res.2 = inr "u3"
  /\ exists d, ("u3", d) ∈ roles res.1 /\ rd_regions d = Some [].
Proof.
  cbv zeta.
  assert (H : (setUserRoleByEmail Example.rt (Some "root")
                 (mkRoleRequest (Some "eve@acme.test") (Some {[ "acme" := "sdr" ]}) None None)
                 Example.with_admin).2 = inr "u3") by (vm_compute; reflexivity).
  split; [exact H |].
  destruct (proj2 (empty_regions_never_eligible Example.rt) _ _ _ _ H)
    as (d & Hin & _ & Hreg & _).
  exists d. split; [exact Hin | exact Hreg].
Defined.

(** ** Merge semantics of the prospect write *)

Section Merge.

Variable rt : Runtime.

Ltac bind_inv H :=
  unfold mbind, result_bind in H;
  repeat match type of H with
         | match ?x with inl _ => _ | inr _ => _ end = inr _ =>
             let E := fresh "E" in destruct x eqn:E; [discriminate H |]
         end.

(** What the schema puts where the input has nothing. *)
Lemma prepare_defaults raw parsed :
  prepare raw = inr parsed ->
  (jget (own_fields raw) "score" = None -> p_score parsed = 0)
  /\ (jget (own_fields raw) "stage" = None -> p_stage parsed = "research")
  /\ (jget (own_fields raw) "status" = None -> opt_or (p_status parsed) "new" = "new").
Proof.
  unfold prepare. intros H.
  unfold mbind at 1, result_bind at 1 in H.
  destruct (fold_product raw) as [| product]; [discriminate |].
  unfold ProspectSchema_parse in H. cbn [jget String.eqb Ascii.eqb Bool.eqb] in H.
  bind_inv H. injection H as <-. cbn.
  repeat split; intros Hn; rewrite Hn in *; cbn in *;
    repeat match goal with E : inr _ = inr _ |- _ => injection E as <- end;
    reflexivity.
Qed.

Lemma prepare_score_range raw parsed :
  prepare raw = inr parsed -> 0 <= p_score parsed <= 100.
Proof.
  unfold prepare. intros H.
  unfold mbind at 1, result_bind at 1 in H.
  destruct (fold_product raw) as [| product]; [discriminate |].
  unfold ProspectSchema_parse in H. cbn [jget String.eqb Ascii.eqb Bool.eqb] in H.
  bind_inv H. injection H as <-. cbn.
  match goal with
  | E : Zod.int_range_default _ _ _ _ ?v = inr _ |- _ =>
      unfold Zod.int_range_default in E; destruct v as [[| | q | | |] |];
      try discriminate E; [| injection E as <-; lia]
  end.
  destruct (Zod.isInteger q && (0 <=? Qnum (Qred q)) && (Qnum (Qred q) <=? 100)) eqn:Eb;
    [| discriminate].
  match goal with E : inr _ = inr _ |- _ => injection E as <- end.
  apply andb_true_iff in Eb as [Eb Hhi]. apply andb_true_iff in Eb as [_ Hlo]. lia.
Qed.

End Merge.

(** A prospect imported with score 90, stage ["hold"] and status
    ["working"], then imported again by a record that has none of the three
    fields: the stored score, stage and status are those of the schema
    defaults, not the ones stored before. *)
Lemma reimport_resets_omitted_fields :
  let key := ("acme", "state.edu_verity") in
  let first := Example.state_u [("score", JNum 90); ("stage", JStr "hold");
                                ("status", JStr "working")] in
  let o1 := importProspects Example.rt (Some "caller") (Some first)
              Example.t0 Example.no_roles in
  let o2 := importProspects Example.rt (Some "caller") (Some (Example.state_u []))
              Example.t0 (final o1) in
  response o1 = inr 1 /\ response o2 = inr 1
  /\ jget (own_fields (Example.state_u [])) "score" = None
  /\ prospects (final o1) !! key ≫= (.!! "score") = Some (FInt 90)
  /\ prospects (final o2) !! key ≫= (.!! "score") = Some (FInt 0)
  /\ prospects (final o1) !! key ≫= (.!! "stage") = Some (FStr "hold")
  /\ prospects (final o2) !! key ≫= (.!! "stage") = Some (FStr "research")
  /\ prospects (final o1) !! key ≫= (.!! "status") = Some (FStr "working")
  /\ prospects (final o2) !! key ≫= (.!! "status") = Some (FStr "new").
Proof. cbv zeta. repeat split; vm_compute; reflexivity. Qed.

(** C2, as the code has it. The prospect write is a merge at the level of
    fields: after a committed call with one record, a stored field whose
    name is not among the 21 keys the call writes keeps its value, and each
    of the 21 keys holds the value the call wrote, whatever was stored.
    The values written come from the parsed record, in which a field absent
    from the input has its schema default: an input without [score],
    [stage] or [status] stores 0, ["research"] and ["new"]. *)
Theorem import_merge_by_written_keys (rt : Runtime) (auth : option string)
    (caller : string) (data : option json) (ct : Timestamp) (s : store)
    (raw : json) (parsed : Parsed) (n : Z) :
  truthy_string auth = Some caller ->
  falsy data = false ->
  items_of rt (default JNull data) = inr [raw] ->
  prepare raw = inr parsed ->
  response (importProspects rt auth data ct s) = inr n ->
  let o := importProspects rt auth data ct s in
  let key := (p_tenantId parsed, normalizeId (p_domain parsed) (p_product parsed)) in
  exists (d : doc) (ownerUid ownerName : fval),
    prospects (final o) !! key = Some d
    /\ (forall k, k ∉ prospect_keys -> d !! k = prospects s !! key ≫= (.!! k))
    /\ (forall k, k ∈ prospect_keys ->
          is_Some (d !! k)
          /\ d !! k = prospect_fields rt parsed ownerUid ownerName !! k ≫= resolve_val ct)
    /\ d !! "score" = Some (FInt (p_score parsed))
    /\ d !! "stage" = Some (FStr (p_stage parsed))
    /\ d !! "status" = Some (FStr (opt_or (p_status parsed) "new"))
    /\ (jget (own_fields raw) "score" = None -> p_score parsed = 0)
    /\ (jget (own_fields raw) "stage" = None -> p_stage parsed = "research")
    /\ (jget (own_fields raw) "status" = None -> opt_or (p_status parsed) "new" = "new").
Proof.
  intros Hauth Hdata Hitems Hprep Hresp. cbv zeta.
  destruct (import_single rt auth caller data ct s raw parsed n Hauth Hdata Hitems Hprep Hresp)
    as (_ & _ & (d' & Hd' & Hlook) & _).
  destruct (assign_owner parsed s) as [[u nm] s1]. cbn [fst snd] in Hd'.
  exists (d' ∪ default ∅ (prospects s !! (p_tenantId parsed,
            normalizeId (p_domain parsed) (p_product parsed)))), u, nm.
  assert (Hkeys : forall k, k ∈ prospect_keys ->
            is_Some (d' !! k)
            /\ d' !! k = prospect_fields rt parsed u nm !! k ≫= resolve_val ct).
  { intros k Hk. split; [| apply (resolve_doc_lookup ct _ _ _ Hd')].
    rewrite (resolve_doc_lookup ct _ _ _ Hd').
    destruct (prospect_fields_Some rt parsed u nm k Hk) as [v Hv]. rewrite Hv. cbn.
    assert (Hsome : is_Some (resolve_doc ct (prospect_fields rt parsed u nm))) by eauto.
    apply resolve_doc_is_Some in Hsome. exact (Hsome k v Hv). }
  assert (Hleft : forall k v, d' !! k = Some v ->
            (d' ∪ default ∅ (prospects s !! (p_tenantId parsed,
               normalizeId (p_domain parsed) (p_product parsed)))) !! k = Some v)
    by (intros k v Hv; now apply lookup_union_Some_l).
  split; [exact Hlook |]. split; [| split; [| split; [| split; [| split]]]].
  - intros k Hk. rewrite lookup_union_r.
    + now destruct (prospects s !! _).
    + rewrite (resolve_doc_lookup ct _ _ _ Hd'), prospect_fields_None by exact Hk.
      reflexivity.
  - intros k Hk. destruct (Hkeys k Hk) as [[v Hv] Heq].
    rewrite (Hleft k v Hv). split; [eauto |]. now rewrite <- Heq.
  - apply Hleft. now rewrite (resolve_doc_lookup ct _ _ _ Hd').
  - apply Hleft. now rewrite (resolve_doc_lookup ct _ _ _ Hd').
  - apply Hleft. now rewrite (resolve_doc_lookup ct _ _ _ Hd').
  - apply prepare_defaults. exact Hprep.
Qed.

Lemma import_merge_by_written_keys_witness :
  let o := importProspects Example.rt (Some "caller") (Some (Example.state_u []))
             Example.t0 Example.two_sdrs in
  (prepare (Example.state_u []) = inr Example.state_u_parsed /\ response o = inr 1)
  /\ exists d, prospects (final o) !! ("acme", "state.edu_verity") = Some d
               /\ d !! "score" = Some (FInt 0).
Proof.
  cbv zeta.
  assert (Ep : prepare (Example.state_u []) = inr Example.state_u_parsed)
    by (vm_compute; reflexivity).
  assert (Hr : response (importProspects Example.rt (Some "caller")
                 (Some (Example.state_u [])) Example.t0 Example.two_sdrs) = inr 1)
    by (vm_compute; reflexivity).
  split; [split; assumption |].
  destruct (import_merge_by_written_keys Example.rt (Some "caller") "caller"
              (Some (Example.state_u [])) Example.t0 Example.two_sdrs
              (Example.state_u []) Example.state_u_parsed 1
              eq_refl eq_refl eq_refl Ep Hr)
    as (d & u & nm & Hd & _ & _ & Hs & _).
  exists d. split; [exact Hd | exact Hs].
Defined.

(** ** The nightly recompute *)

Section Recompute.

Variable rt : Runtime.

Lemma resolve_recalc_fields ct now ms stamp p :
  Timestamp_fromMillis (Some ms) = Some stamp ->
  resolve_doc ct (recalc_fields rt now ms p) = Some (recalc_stored rt now stamp p).
Proof.
  intros Hs. unfold resolve_doc, recalc_fields, recalc_stored.
  case_decide as Hd.
  - f_equal. apply map_eq. intros k. rewrite lookup_omap.
    cbn [list_to_map foldr uncurry fst snd]. rewrite !lookup_insert.
    repeat case_decide; subst; cbn -[Timestamp_fromMillis];
      try rewrite Hs; reflexivity.
  - exfalso. apply Hd. intros k v Hk. apply elem_of_list_to_map_2 in Hk.
    repeat (apply elem_of_cons in Hk as [Hk | Hk];
            [injection Hk as -> ->; cbn -[Timestamp_fromMillis]; try rewrite Hs; eauto |]).
    inversion Hk.
Qed.

(** A batch of updates of distinct existing documents commits, and merges
    each update over the document it addresses. *)
Lemma commit_updates ct (l : list (pkey * wdoc)) : forall s,
  NoDup l.*1 ->
  (forall k d, (k, d) ∈ l ->
     is_Some (prospects s !! k) /\ is_Some (resolve_doc ct d)) ->
  exists s',
    commit ct ((fun '(k, d) => WUpdate k d) <$> l) s = Some s'
    /\ (roles s' = roles s /\ contacts s' = contacts s
        /\ signals s' = signals s /\ audit s' = audit s)
    /\ routing s' = routing s
    /\ (forall k, k ∉ l.*1 -> prospects s' !! k = prospects s !! k)
    /\ (forall k d, (k, d) ∈ l ->
          exists d' old, resolve_doc ct d = Some d' /\ prospects s !! k = Some old
                         /\ prospects s' !! k = Some (d' ∪ old)).
Proof.
  induction l as [| [k d] l IH]; intros s Hnd Hall.
  - exists s. cbn. repeat split; auto. intros k d Hin. inversion Hin.
  - apply NoDup_cons in Hnd as [Hk Hnd].
    destruct (Hall k d ltac:(now left)) as [[old Hold] [d' Hd']].
    cbn [fmap list_fmap commit apply_write]. rewrite Hd', Hold. cbn [mbind option_bind].
    set (s1 := mkStore _ _ _ _ _ _).
    destruct (IH s1 Hnd) as (s' & Hc & Hsd & Hr & Hother & Hin).
    { intros k' d0 Hin'. split; [| apply (Hall k' d0); now right].
      subst s1. cbn. destruct (decide (k = k')) as [-> | Hne].
      - rewrite lookup_insert_eq. eauto.
      - rewrite lookup_insert_ne by assumption. apply (Hall k' d0). now right. }
    exists s'. split; [exact Hc |]. split; [exact Hsd |]. split; [exact Hr |]. split.
    + intros k' Hk'. cbn in Hk'.
      rewrite Hother by (intros Hx; apply Hk'; now right).
      subst s1. cbn. rewrite lookup_insert_ne; [reflexivity |].
      intros ->. apply Hk'. now left.
    + intros k' d0 Hin'. apply elem_of_cons in Hin' as [[= -> ->] | Hin'].
      * exists d', old. repeat split; try assumption.
        rewrite Hother by exact Hk. subst s1. cbn. apply lookup_insert_eq.
      * destruct (Hin k' d0 Hin') as (d1 & old1 & H1 & H2 & H3).
        exists d1, old1. repeat split; try assumption.
        subst s1. cbn in H2. rewrite lookup_insert_ne in H2; [exact H2 |].
        intros ->. apply Hk. apply list_elem_of_fmap. exists (k', d0). now split.
Qed.

(** With valid clock readings the job commits; every prospect document
    gets [score], [stage] and [updatedAt] written over what it had, keeps its
    other fields, and nothing else changes. *)
Lemma recalculateScores_spec now clock ct s :
  (forall k, is_Some (Timestamp_fromMillis (Some (clock k)))) ->
  exists s',
    recalculateScores rt now clock ct s = (s', None)
    /\ roles s' = roles s /\ routing s' = routing s /\ contacts s' = contacts s
    /\ signals s' = signals s /\ audit s' = audit s
    /\ forall k,
         prospects s' !! k
         = (fun p => match Timestamp_fromMillis (Some (clock k)) with
                     | Some stamp => recalc_stored rt now stamp p ∪ p
                     | None => p
                     end) <$> prospects s !! k.
Proof.
  intros Hclock. unfold recalculateScores, recalc_batch.
  set (l := (fun kp : pkey * doc => (kp.1, recalc_fields rt now (clock kp.1) kp.2))
              <$> map_to_list (prospects s)).
  assert (Hbatch : (fun '(k, p) => WUpdate k (recalc_fields rt now (clock k) p))
                     <$> map_to_list (prospects s)
                   = (fun '(k, d) => WUpdate k d) <$> l).
  { subst l. rewrite <- list_fmap_compose. apply list_fmap_ext. now intros i [k p]. }
  assert (Hkeys : l.*1 = (map_to_list (prospects s)).*1).
  { subst l. rewrite <- list_fmap_compose. apply list_fmap_ext. now intros i [k p]. }
  assert (Hl : forall k d, (k, d) ∈ l <->
             exists p, prospects s !! k = Some p /\ d = recalc_fields rt now (clock k) p).
  { intros k d. subst l. rewrite list_elem_of_fmap. split.
    - intros ([k' p] & [= -> ->] & Hin). apply elem_of_map_to_list in Hin. eauto.
    - intros (p & Hp & ->). exists (k, p). split; [reflexivity |].
      now apply elem_of_map_to_list. }
  rewrite Hbatch.
  destruct (commit_updates ct l s) as (s' & -> & Hsd & Hr & Hother & Hin).
  { rewrite Hkeys. apply NoDup_fst_map_to_list. }
  { intros k d Hkd. apply Hl in Hkd as (p & Hp & ->). split; [eauto |].
    destruct (Hclock k) as [stamp Hs]. rewrite (resolve_recalc_fields ct now _ stamp p Hs).
    eauto. }
  exists s'. split; [reflexivity |].
  destruct Hsd as (H1 & H3 & H4 & H5).
  repeat split; try assumption.
  intros k. destruct (prospects s !! k) as [p |] eqn:Ep; cbn.
  - destruct (Hin k (recalc_fields rt now (clock k) p)) as (d' & old & Hd' & Hold & Hnew).
    { apply Hl. eauto. }
    destruct (Hclock k) as [stamp Hs]. rewrite Hs.
    rewrite (resolve_recalc_fields ct now _ stamp p Hs) in Hd'. injection Hd' as <-.
    rewrite Ep in Hold. injection Hold as <-. exact Hnew.
  - rewrite Hother; [exact Ep |]. rewrite Hkeys. intros Hin'.
    apply list_elem_of_fmap in Hin' as ([k' p] & -> & Hin'). cbn in Ep.
    apply elem_of_map_to_list in Hin'. congruence.
Qed.

(** The fields of a recomputed document. *)
Lemma recalc_stored_lookup now stamp (p : doc) :
  (recalc_stored rt now stamp p ∪ p) !! "score" = Some (num_val (decayed_score rt now p))
  /\ (recalc_stored rt now stamp p ∪ p) !! "stage"
     = Some (FStr (stage_of (decayed_score rt now p)))
  /\ (recalc_stored rt now stamp p ∪ p) !! "updatedAt" = Some (FTime stamp)
  /\ forall k, k <> "score" -> k <> "stage" -> k <> "updatedAt" ->
               (recalc_stored rt now stamp p ∪ p) !! k = p !! k.
Proof.
  repeat split; try (apply lookup_union_Some_l; reflexivity).
  intros k H1 H2 H3. apply lookup_union_r. unfold recalc_stored.
  cbn [list_to_map foldr uncurry fst snd].
  now rewrite !lookup_insert_ne, lookup_empty by congruence.
Qed.

End Recompute.

Section Scores.

Variable rt : Runtime.

Lemma read_score_int (p : doc) z :
  p !! "score" = Some (FInt z) -> read_score rt p = Some z.
Proof.
  intros H. unfold read_score. rewrite H. cbn.
  destruct (Z.eqb_spec z 0) as [-> | Hz]; reflexivity.
Qed.

(** The decay rule on a document whose score is the integer [z]: the new
    score is [z] or [max 0 (z - 2)]. *)
Lemma decayed_score_int now (p : doc) z :
  p !! "score" = Some (FInt z) ->
  (decayed_score rt now p = Some z \/ decayed_score rt now p = Some (Z.max 0 (z - 2))).
Proof.
  intros H. unfold decayed_score. rewrite (read_score_int p z H).
  destruct (read_last rt p) as [last |]; [| now left].
  destruct (JS.ge _ _); [right | left]; reflexivity.
Qed.

Lemma read_last_null (p : doc) :
  p !! "lastContactedAt" = None \/ p !! "lastContactedAt" = Some FNull ->
  read_last rt p = None.
Proof. intros [H | H]; unfold read_last; now rewrite H. Qed.

Lemma read_last_timestamp (p : doc) t :
  p !! "lastContactedAt" = Some (FTime t) ->
  seconds t <> 0 ->
  min_seconds <= seconds t <= max_seconds ->
  read_last rt p = Some (Some (seconds t * 1000)).
Proof.
  intros H Hnz Hr. unfold read_last. rewrite H. cbn.
  destruct (Z.eqb_spec (seconds t) 0) as [E | _]; [contradiction |]. cbn.
  unfold JS.TimeClip, JS.max_time.
  destruct (Z.leb_spec (Z.abs (seconds t * 1000)) 8640000000000000) as [_ | Hbig];
    [reflexivity |].
  unfold min_seconds, max_seconds in Hr. lia.
Qed.

Lemma stage_of_int z :
  stage_of (Some z)
  = if 80 <=? z then "P1" else if 60 <=? z then "nurture" else "research".
Proof. reflexivity. Qed.

(** A number that fails the checks of the [score] schema makes [prepare]
    throw. *)
Lemma prepare_rejects_score raw q :
  jget (own_fields raw) "score" = Some (JNum q) ->
  (forall z, 0 <= z <= 100 -> ~ q == inject_Z z) ->
  exists err, prepare raw = inl err.
Proof.
  intros Hq Hbad. unfold prepare.
  unfold mbind at 1, result_bind at 1.
  destruct (fold_product raw) as [| product]; [eauto |].
  unfold ProspectSchema_parse. cbn [jget String.eqb Ascii.eqb Bool.eqb].
  rewrite Hq. unfold mbind, result_bind.
  repeat match goal with
         | |- exists e, match ?x with inl _ => _ | inr _ => _ end = inl e =>
             lazymatch x with
             | Zod.int_range_default _ _ _ _ _ => fail
             | _ => destruct x; [eauto |]
             end
         end.
  unfold Zod.int_range_default.
  destruct (Zod.isInteger q && (0 <=? Qnum (Qred q)) && (Qnum (Qred q) <=? 100)) eqn:Eb;
    [| eauto].
  exfalso. apply andb_true_iff in Eb as [Eb Hhi]. apply andb_true_iff in Eb as [Hint Hlo].
  apply (Hbad (Qnum (Qred q))); [lia |].
  rewrite <- (Qred_correct q) at 1. unfold Zod.isInteger in Hint.
  apply Z.eqb_eq in Hint. unfold Qeq, inject_Z. cbn. rewrite Hint. lia.
Qed.

End Scores.

(** C8. A record accepted by validation has an integer score between 0 and
    100, and a number outside that range (or not an integer) is rejected;
    the recompute maps a stored score in [0,100] to a score in [0,100] that
    is either the same or two less (not below 0), never more; so after a
    run every prospect whose score was in range has its score in range. *)
Theorem score_in_range_preserved (rt : Runtime) :
  (forall raw parsed, prepare raw = inr parsed -> 0 <= p_score parsed <= 100)
  /\ (forall raw q,
        jget (own_fields raw) "score" = Some (JNum q) ->
        (forall z, 0 <= z <= 100 -> ~ q == inject_Z z) ->
        exists err, prepare raw = inl err)
  /\ (forall now (p : doc) z,
        p !! "score" = Some (FInt z) -> 0 <= z <= 100 ->
        exists z', decayed_score rt now p = Some z'
                   /\ 0 <= z' <= 100 /\ z' <= z
                   /\ (z' = z \/ z' = Z.max 0 (z - 2)))
  /\ (forall now clock ct s,
        (forall k, is_Some (Timestamp_fromMillis (Some (clock k)))) ->
        (forall k (p : doc), prospects s !! k = Some p ->
           exists z, p !! "score" = Some (FInt z) /\ 0 <= z <= 100) ->
        (recalculateScores rt now clock ct s).2 = None
        /\ forall k (p' : doc),
             prospects (recalculateScores rt now clock ct s).1 !! k = Some p' ->
             exists (p : doc) z z',
               prospects s !! k = Some p /\ p !! "score" = Some (FInt z)
               /\ p' !! "score" = Some (FInt z') /\ 0 <= z' <= 100 /\ z' <= z).
Proof.
  assert (Hdecay : forall now (p : doc) z,
            p !! "score" = Some (FInt z) -> 0 <= z <= 100 ->
            exists z', decayed_score rt now p = Some z'
                       /\ 0 <= z' <= 100 /\ z' <= z
                       /\ (z' = z \/ z' = Z.max 0 (z - 2))).
  { intros now p z Hp Hz.
    destruct (decayed_score_int rt now p z Hp) as [E | E]; rewrite E; eexists;
      (split; [reflexivity |]); repeat split; auto; lia. }
  split; [apply prepare_score_range |]. split; [apply prepare_rejects_score |].
  split; [exact Hdecay |].
  intros now clock ct s Hclock Hwf.
  destruct (recalculateScores_spec rt now clock ct s Hclock) as (s' & -> & _ & _ & _ & _ & _ & Hp).
  cbn [fst snd]. split; [reflexivity |].
  intros k p' Hp'. rewrite Hp in Hp'.
  destruct (prospects s !! k) as [p |] eqn:Ep; [| discriminate].
  destruct (Hclock k) as [stamp Hs]. rewrite Hs in Hp'.
  cbn [fmap option_fmap option_map] in Hp'. injection Hp' as <-.
  destruct (Hwf k p Ep) as (z & Hz & Hr).
  destruct (Hdecay now p z Hz Hr) as (z' & Hd & Hr' & Hle & _).
  exists p, z, z'. split; [reflexivity |]. split; [exact Hz |].
  destruct (recalc_stored_lookup rt now stamp p) as (-> & _).
  rewrite Hd. cbn. auto.
Qed.

Lemma score_in_range_preserved_witness :
  let p : doc := {[ "score" := FInt 1 ]} in
  (p !! "score" = Some (FInt 1) /\ 0 <= 1 <= 100)
  /\ exists z', decayed_score Example.rt 0 p = Some z' /\ 0 <= z' <= 100 /\ z' <= 1.
Proof.
  cbv zeta.
  assert (H1 : ({[ "score" := FInt 1 ]} : doc) !! "score" = Some (FInt 1)) by reflexivity.
  assert (H2 : 0 <= 1 <= 100) by lia.
  split; [split; assumption |].
  destruct (proj1 (proj2 (proj2 (score_in_range_preserved Example.rt))) 0 _ 1 H1 H2)
    as (z' & Hd & Hr & Hle & _).
  exists z'. repeat split; try assumption; apply Hr.
Defined.

(** A prospect with score 82 whose last contact is stored as the Timestamp
    1000 s + 500 ms, recomputed 3 days minus 400 ms after that contact:
    [floor((now - lastContactedAt) / 1 day)] is 2, yet the score written is
    80. The code measures from [seconds * 1000], half a second earlier. *)
Lemma recalc_decays_within_three_days :
  let t := mkTimestamp 1000 500000000 in
  let now := 1000500 + 3 * ms_per_day - 400 in
  let p : doc := {[ "score" := FInt 82; "lastContactedAt" := FTime t ]} in
  let s := mkStore [] ∅ {[ ("acme", "state.edu_verity") := p ]} [] [] [] in
  let s' := (recalculateScores Example.rt now (fun _ => now) Example.t0 s).1 in
  Timestamp_toMillis t = 1000500
  /\ daysSinceContact now t = 2
  /\ decayed_score Example.rt now p = Some 80
  /\ prospects s' !! ("acme", "state.edu_verity") ≫= (.!! "score") = Some (FInt 80).
Proof. cbv zeta. repeat split; vm_compute; reflexivity. Qed.

(** A contact time within the first second of the epoch: [seconds] is 0,
    which line 169 takes for a missing field, so the Timestamp object itself
    goes to [new Date]. When that gives an invalid date the score is left as
    it is, however long ago the contact was. *)
Lemma recalc_skips_epoch_second (rt : Runtime) (now nanos z : Z) (p : doc) :
  p !! "score" = Some (FInt z) ->
  p !! "lastContactedAt" = Some (FTime (mkTimestamp 0 nanos)) ->
  Date_parse rt (Timestamp_toString rt (mkTimestamp 0 nanos)) = None ->
  decayed_score rt now p = Some z.
Proof.
  intros Hs Hl Hd. unfold decayed_score, read_last.
  rewrite (read_score_int rt p z Hs), Hl. cbn. now rewrite Hd.
Qed.

(** C4, as the code has it. A run with valid clock readings commits and
    writes [score], [stage] and [updatedAt] to every prospect document,
    leaving its other fields. For a document whose score is the integer [z]:
    if [lastContactedAt] is absent or null the score written is [z]; if it
    is a Timestamp with a non-zero [seconds] field the score written is
    [max 0 (z - 2)] when [floor((now - seconds * 1000) / 1 day) >= 3] and [z]
    otherwise. The stage written is ["P1"] for a written score of at least
    80, ["nurture"] from 60 to 79 and ["research"] below, whatever stage was
    stored. *)
Theorem recalc_decay_and_stage (rt : Runtime) (now : Z) (clock : pkey -> Z)
    (ct : Timestamp) (s : store) :
  (forall k, is_Some (Timestamp_fromMillis (Some (clock k)))) ->
  exists s',
    recalculateScores rt now clock ct s = (s', None)
    /\ (forall k, is_Some (prospects s' !! k) <-> is_Some (prospects s !! k))
    /\ forall k (p : doc) z,
         prospects s !! k = Some p ->
         p !! "score" = Some (FInt z) ->
         exists (p' : doc) z' stamp,
           prospects s' !! k = Some p'
           /\ p' !! "score" = Some (FInt z')
           /\ p' !! "stage"
              = Some (FStr (if 80 <=? z' then "P1"
                            else if 60 <=? z' then "nurture" else "research"))
           /\ Timestamp_fromMillis (Some (clock k)) = Some stamp
           /\ p' !! "updatedAt" = Some (FTime stamp)
           /\ (forall f, f <> "score" -> f <> "stage" -> f <> "updatedAt" ->
                         p' !! f = p !! f)
           /\ (z' = z \/ z' = Z.max 0 (z - 2))
           /\ (p !! "lastContactedAt" = None \/ p !! "lastContactedAt" = Some FNull ->
               z' = z)
           /\ (forall t, p !! "lastContactedAt" = Some (FTime t) ->
                 seconds t <> 0 ->
                 min_seconds <= seconds t <= max_seconds ->
                 z' = if 3 <=? (now - seconds t * 1000) / ms_per_day
                      then Z.max 0 (z - 2) else z).
Proof.
  intros Hclock.
  destruct (recalculateScores_spec rt now clock ct s Hclock)
    as (s' & Hrun & _ & _ & _ & _ & _ & Hp).
  exists s'. split; [exact Hrun |]. split.
  - intros k. rewrite Hp. destruct (prospects s !! k); cbn; split; eauto.
    all: intros [? [=]].
  - intros k p z Hk Hz. destruct (Hclock k) as [stamp Hs].
    specialize (Hp k). rewrite Hk, Hs in Hp. cbn [fmap option_fmap option_map] in Hp.
    destruct (recalc_stored_lookup rt now stamp p) as (Hsc & Hst & Hup & Hoth).
    assert (Hd : exists z', decayed_score rt now p = Some z'
                            /\ (z' = z \/ z' = Z.max 0 (z - 2))).
    { destruct (decayed_score_int rt now p z Hz) as [E | E]; rewrite E; eauto. }
    destruct Hd as (z' & Hd & Hcases).
    exists (recalc_stored rt now stamp p ∪ p), z', stamp.
    rewrite Hsc, Hst, Hup, Hd. cbn [num_val].
    repeat split; try assumption; try reflexivity.
    + intros Hnull. unfold decayed_score in Hd.
      rewrite (read_score_int rt p z Hz), (read_last_null rt p Hnull) in Hd. congruence.
    + intros t Ht Hnz Hr. unfold decayed_score in Hd.
      rewrite (read_score_int rt p z Hz), (read_last_timestamp rt p t Ht Hnz Hr) in Hd.
      cbn in Hd. destruct (3 <=? (now - seconds t * 1000) / ms_per_day); congruence.
Qed.

(** The three examples of the specification: 82 contacted 5 days ago, 61
    contacted yesterday, 1 contacted 10 days ago, the first one with its
    stage set to ["hold"]. *)
Lemma recalc_decay_and_stage_witness :
  let now := 1700000000000 in
  let ago d := FTime (mkTimestamp (1700000000 - d * 86400) 0) in
  let s := mkStore [] ∅
             {[ ("acme", "a_verity") := {[ "score" := FInt 82; "stage" := FStr "hold";
                                           "lastContactedAt" := ago 5 ]};
                ("acme", "b_verity") := {[ "score" := FInt 61; "lastContactedAt" := ago 1 ]};
                ("acme", "c_verity") := {[ "score" := FInt 1; "lastContactedAt" := ago 10 ]} ]}
             [] [] [] in
  (forall k : pkey, is_Some (Timestamp_fromMillis (Some now)))
  /\ exists s',
       recalculateScores Example.rt now (fun _ => now) Example.t0 s = (s', None)
       /\ prospects s' !! ("acme", "a_verity") ≫= (.!! "score") = Some (FInt 80)
       /\ prospects s' !! ("acme", "a_verity") ≫= (.!! "stage") = Some (FStr "P1")
       /\ prospects s' !! ("acme", "b_verity") ≫= (.!! "score") = Some (FInt 61)
       /\ prospects s' !! ("acme", "b_verity") ≫= (.!! "stage") = Some (FStr "nurture")
       /\ prospects s' !! ("acme", "c_verity") ≫= (.!! "score") = Some (FInt 0)
       /\ prospects s' !! ("acme", "c_verity") ≫= (.!! "stage") = Some (FStr "research").
Proof.
  cbv zeta.
  assert (H : forall k : pkey, is_Some (Timestamp_fromMillis (Some 1700000000000)))
    by (intros _; vm_compute; eauto).
  split; [exact H |].
  match goal with
  | |- exists s', recalculateScores ?rt ?now ?clock ?ct ?s = _ /\ _ =>
      destruct (recalc_decay_and_stage rt now clock ct s H) as (s' & Hrun & _)
  end.
  exists s'. split; [exact Hrun |].
  apply (f_equal fst) in Hrun. cbn [fst] in Hrun. subst s'.
  repeat split; vm_compute; reflexivity.
Defined.

(** ** Concurrent assignment *)

Section Interleaving.

Lemma run_two_app sched1 sched2 : forall a b s,
  run_two (sched1 ++ sched2) a b s
  = let '(a', b', s') := run_two sched1 a b s in run_two sched2 a' b' s'.
Proof.
  induction sched1 as [| [] sched1 IH]; intros a b s; cbn [run_two app].
  - reflexivity.
  - destruct (pick_step a s). apply IH.
  - destruct (pick_step b s). apply IH.
Qed.

(** The three storage operations of a call, performed without another
    call's operation in between, are [pickOwner]. *)
Lemma pick_steps_left t r b s :
  run_two [true; true; true] (PickStart t r) b s
  = (PickDone (pickOwner t r s).1, b, (pickOwner t r s).2).
Proof.
  cbn [run_two pick_step]. unfold pickOwner.
  destruct (resolvePool t r s) as [| o pool]; reflexivity.
Qed.

Lemma pick_steps_right t r a s :
  run_two [false; false; false] a (PickStart t r) s
  = (a, PickDone (pickOwner t r s).1, (pickOwner t r s).2).
Proof.
  cbn [run_two pick_step]. unfold pickOwner.
  destruct (resolvePool t r s) as [| o pool]; reflexivity.
Qed.

End Interleaving.

(** Two calls for scope (acme, ANY), the cursor being at index 0 and the
    pool having two members. Each call queries the pool and reads the
    cursor before either writes: both read [lastIndex = 0], both select
    index 1 and return the same owner; the second write stores index 1
    again. *)
Lemma interleaved_calls_select_same_owner :
  let s := Example.two_sdrs_started in
  let reads := run_two [true; true; false; false]
                 (PickStart "acme" "") (PickStart "acme" "") s in
  let writes := run_two [true; false] reads.1.1 reads.1.2 reads.2 in
  read_lastIndex reads.1.1 = Some 0
  /\ read_lastIndex reads.1.2 = Some 0
  /\ writes.1.1 = writes.1.2
  /\ writes.1.1 = PickDone (resolvePool "acme" "" s !! 1%nat)
  /\ (exists o, resolvePool "acme" "" s !! 1%nat = Some o /\ uid o = "u2")
  /\ routing writes.2 !! "acme__ANY" = Some (mkCursor 1 3 "acme" "ANY").
Proof.
  cbv zeta. repeat split; try (vm_compute; reflexivity).
  eexists. split; vm_compute; reflexivity.
Qed.

(** C9, as the code has it. The cursor is advanced by a read followed by a
    separate write. When the three storage operations of one call are not
    separated by those of another call (the calls run one after the other),
    each call is [pickOwner]: the second call reads the index the first one
    stored and selects its successor, and with a pool of two or more members
    the two calls select different indices. *)
Theorem serial_calls_advance_cursor (t r : string) (s : store) (c : Cursor) :
  routing s !! rrId t r = Some c ->
  0 <= lastIndex c ->
  (2 <= length (resolvePool t r s))%nat ->
  let pool := resolvePool t r s in
  let N := Z.of_nat (length pool) in
  let i1 := (lastIndex c + 1) mod N in
  let i2 := (i1 + 1) mod N in
  let first := pickOwner t r s in
  let second := pickOwner t r first.2 in
  run_two [true; true; true; false; false; false] (PickStart t r) (PickStart t r) s
  = (PickDone first.1, PickDone second.1, second.2)
  /\ first.1 = pool !! Z.to_nat i1
  /\ routing first.2 !! rrId t r = Some (mkCursor i1 (count c + 1) t (JS.str_or r "ANY"))
  /\ second.1 = pool !! Z.to_nat i2
  /\ routing second.2 !! rrId t r = Some (mkCursor i2 (count c + 2) t (JS.str_or r "ANY"))
  /\ i1 <> i2.
Proof.
  intros Hc Hli Hlen pool N i1 i2 first second.
  assert (Hne : resolvePool t r s <> []).
  { intros E. rewrite E in Hlen. cbn in Hlen. lia. }
  assert (HN : 2 <= N) by (subst N pool; lia).
  assert (Hi1 : 0 <= i1 < N) by (subst i1; apply Z.mod_pos_bound; lia).
  assert (Hfirst : first = (pool !! Z.to_nat i1,
            set_routing s (<[rrId t r := mkCursor i1 (count c + 1) t (JS.str_or r "ANY")]>
                             (routing s))))
    by (apply pickOwner_next; assumption).
  assert (Hc1 : routing first.2 !! rrId t r
                = Some (mkCursor i1 (count c + 1) t (JS.str_or r "ANY")))
    by (rewrite Hfirst; cbn; apply lookup_insert_eq).
  assert (Hpool1 : resolvePool t r first.2 = pool) by (rewrite Hfirst; reflexivity).
  assert (Hsecond : second = (pool !! Z.to_nat i2,
            set_routing first.2
              (<[rrId t r := mkCursor i2 (count c + 1 + 1) t (JS.str_or r "ANY")]>
                 (routing first.2)))).
  { subst second.
    rewrite (pickOwner_next t r first.2 _ ltac:(rewrite Hpool1; exact Hne) Hc1
               ltac:(cbn; lia)).
    rewrite Hpool1. reflexivity. }
  split; [| split; [| split; [| split; [| split]]]].
  - change [true; true; true; false; false; false]
      with ([true; true; true] ++ [false; false; false]).
    rewrite run_two_app, pick_steps_left, pick_steps_right. reflexivity.
  - now rewrite Hfirst.
  - exact Hc1.
  - now rewrite Hsecond.
  - rewrite Hsecond. cbn. rewrite lookup_insert_eq. do 2 f_equal. lia.
  - subst i2. intros E.
    destruct (Z.eq_dec (i1 + 1) N) as [Hlast | Hmid].
    + rewrite Hlast, Z_mod_same_full in E. lia.
    + rewrite Z.mod_small in E by lia. lia.
Qed.

Lemma serial_calls_advance_cursor_witness :
  let s := Example.two_sdrs_started in
  (routing s !! rrId "acme" "" = Some (mkCursor 0 1 "acme" "ANY")
   /\ (2 <= length (resolvePool "acme" "" s))%nat)
  /\ (pickOwner "acme" "" s).1 <> (pickOwner "acme" "" (pickOwner "acme" "" s).2).1.
Proof.
  cbv zeta.
  assert (H1 : routing Example.two_sdrs_started !! rrId "acme" ""
               = Some (mkCursor 0 1 "acme" "ANY")) by (vm_compute; reflexivity).
  assert (H2 : (2 <= length (resolvePool "acme" "" Example.two_sdrs_started))%nat)
    by (vm_compute; lia).
  split; [split; assumption |].
  destruct (serial_calls_advance_cursor "acme" "" Example.two_sdrs_started _ H1
              ltac:(cbn; lia) H2) as (_ & -> & _ & -> & _ & _).
  vm_compute. discriminate.
Defined.

(* ===================================================================== *)
(** * Further properties *)
(* ===================================================================== *)

(** ** Scopes of the rotation *)

Section Scopes.

Lemma rrId_inj t1 r1 t2 r2 :
  no_underscore t1 -> no_underscore t2 ->
  rrId t1 r1 = rrId t2 r2 ->
  t1 = t2 /\ JS.str_or r1 "ANY" = JS.str_or r2 "ANY".
Proof.
  unfold rrId, no_underscore. revert t2.
  induction t1 as [| a t1 IH]; intros [| b t2] H1 H2 E; cbn in *.
  - injection E as E. auto.
  - injection E as <- _. cbn in H2. discriminate.
  - injection E as -> _. cbn in H1. discriminate.
  - injection E as <- E.
    apply orb_false_iff in H1 as [_ H1]. apply orb_false_iff in H2 as [_ H2].
    destruct (IH t2 H1 H2 E) as [-> Hr]. auto.
Qed.

Lemma pickOwner_depends t r s1 s2 :
  roles s1 = roles s2 ->
  routing s1 !! rrId t r = routing s2 !! rrId t r ->
  (pickOwner t r s1).1 = (pickOwner t r s2).1.
Proof.
  intros Hr Hc. unfold pickOwner, resolvePool, role_entries. rewrite Hr.
  destruct (filter _ _); [reflexivity |]. cbn. now rewrite Hc.
Qed.

End Scopes.

(** X1. An assignment for one scope leaves the cursor of every other scope
    as it was, and does not change whom the next assignment in another scope
    selects. Two scopes are different when their tenants (without
    underscore) differ or their regions differ after the fallback to
    ["ANY"]; an unspecified region and the region ["ANY"] are one scope. *)
Theorem assignment_scope_isolation (t1 r1 t2 r2 : string) (s : store) :
  no_underscore t1 -> no_underscore t2 ->
  t1 <> t2 \/ JS.str_or r1 "ANY" <> JS.str_or r2 "ANY" ->
  routing (pickOwner t1 r1 s).2 !! rrId t2 r2 = routing s !! rrId t2 r2
  /\ (pickOwner t2 r2 (pickOwner t1 r1 s).2).1 = (pickOwner t2 r2 s).1
  /\ rrId t1 "" = rrId t1 "ANY".
Proof.
  intros H1 H2 Hdiff.
  assert (Hne : rrId t2 r2 <> rrId t1 r1).
  { intros E. destruct (rrId_inj _ _ _ _ H2 H1 E) as [-> Hr].
    destruct Hdiff as [Ht | Hr']; [now apply Ht | apply Hr'; now rewrite Hr]. }
  assert (Hsame : routing (pickOwner t1 r1 s).2 !! rrId t2 r2 = routing s !! rrId t2 r2)
    by (now apply pickOwner_other_scope).
  split; [exact Hsame |]. split; [| reflexivity].
  apply pickOwner_depends; [| exact Hsame].
  symmetry. apply (pickOwner_same_data t1 r1 s).
Qed.

Lemma assignment_scope_isolation_witness :
  (no_underscore "acme" /\ no_underscore "acme"
   /\ JS.str_or "east" "ANY" <> JS.str_or "west" "ANY")
  /\ routing (pickOwner "acme" "east" Example.two_sdrs_started).2 !! rrId "acme" "west"
     = routing Example.two_sdrs_started !! rrId "acme" "west".
Proof.
  assert (H1 : no_underscore "acme") by reflexivity.
  assert (H2 : JS.str_or "east" "ANY" <> JS.str_or "west" "ANY") by (cbn; discriminate).
  split; [repeat split; assumption |].
  exact (proj1 (assignment_scope_isolation "acme" "east" "acme" "west"
                  Example.two_sdrs_started H1 H1 (or_intror H2))).
Defined.

(** X2. When the pool is not empty and the scope has no cursor or a cursor
    with a non-negative index (whatever pool that index was computed for),
    [pickOwner] returns a member of the current pool, and the index it
    stores is a valid index into the current pool. *)
Theorem pickOwner_returns_pool_member (t r : string) (s : store) :
  resolvePool t r s <> [] ->
  (forall c, routing s !! rrId t r = Some c -> 0 <= lastIndex c) ->
  exists o c',
    (pickOwner t r s).1 = Some o
    /\ o ∈ resolvePool t r s
    /\ routing (pickOwner t r s).2 !! rrId t r = Some c'
    /\ resolvePool t r s !! Z.to_nat (lastIndex c') = Some o
    /\ 0 <= lastIndex c' < Z.of_nat (length (resolvePool t r s)).
Proof.
  intros Hne Hc.
  assert (HN : 0 < Z.of_nat (length (resolvePool t r s))).
  { destruct (resolvePool t r s); cbn [length]; [congruence | lia]. }
  assert (Hget : forall i, 0 <= i < Z.of_nat (length (resolvePool t r s)) ->
            exists o, resolvePool t r s !! Z.to_nat i = Some o).
  { intros i Hi. apply lookup_lt_is_Some. lia. }
  destruct (routing s !! rrId t r) as [c |] eqn:Ec.
  - rewrite (pickOwner_next t r s c Hne Ec (Hc c eq_refl)). cbn [fst snd routing set_routing].
    set (i := (lastIndex c + 1) mod Z.of_nat (length (resolvePool t r s))).
    assert (Hi : 0 <= i < Z.of_nat (length (resolvePool t r s)))
      by (subst i; apply Z.mod_pos_bound; lia).
    destruct (Hget i Hi) as [o Ho]. exists o. eexists.
    split; [exact Ho |]. split; [eapply list_elem_of_lookup_2; exact Ho |].
    split; [apply lookup_insert_eq |]. cbn. split; [exact Ho | exact Hi].
  - rewrite (pickOwner_first t r s Hne Ec). cbn [fst snd routing set_routing].
    destruct (Hget 0 ltac:(lia)) as [o Ho]. exists o. eexists.
    split; [exact Ho |]. split; [eapply list_elem_of_lookup_2; exact Ho |].
    split; [apply lookup_insert_eq |]. cbn. split; [exact Ho | lia].
Qed.

(** The cursor says 7, the pool has two members. *)
Lemma pickOwner_returns_pool_member_witness :
  let s := set_routing Example.two_sdrs {[ "acme__ANY" := mkCursor 7 8 "acme" "ANY" ]} in
  resolvePool "acme" "" s <> []
  /\ exists o, (pickOwner "acme" "" s).1 = Some o /\ o ∈ resolvePool "acme" "" s.
Proof.
  cbv zeta.
  assert (H1 : resolvePool "acme" ""
                 (set_routing Example.two_sdrs {[ "acme__ANY" := mkCursor 7 8 "acme" "ANY" ]})
               <> []) by (vm_compute; discriminate).
  split; [exact H1 |].
  destruct (pickOwner_returns_pool_member "acme" "" _ H1) as (o & c' & Ho & Hin & _).
  { intros c Hc. vm_compute in Hc. injection Hc as <-. cbn. lia. }
  exists o. split; [exact Ho | exact Hin].
Defined.

(** ** Owners and children of an import *)

Section ImportEffects.

Variable rt : Runtime.

Lemma children_cons w b :
  contact_writes (w :: b) = contact_writes [w] ++ contact_writes b
  /\ signal_writes (w :: b) = signal_writes [w] ++ signal_writes b.
Proof. now destruct w. Qed.

(** A commit appends the contacts and signals of its batch, in order. *)
Lemma commit_children ct b : forall s s',
  commit ct b s = Some s' ->
  contacts s' = contacts s ++ omap (resolve_child ct) (contact_writes b)
  /\ signals s' = signals s ++ omap (resolve_child ct) (signal_writes b).
Proof.
  induction b as [| w b IH]; intros s s'; cbn [commit].
  - intros [= <-]. cbn. now rewrite !app_nil_r.
  - destruct (apply_write ct s w) as [s1 |] eqn:E1; cbn [mbind option_bind]; [| discriminate].
    intros H. apply IH in H as [Hc Hs].
    destruct (children_cons w b) as [-> ->]. rewrite !omap_app, !app_assoc, Hc, Hs.
    assert (contacts s1 = contacts s ++ omap (resolve_child ct) (contact_writes [w])
            /\ signals s1 = signals s ++ omap (resolve_child ct) (signal_writes [w])) as [-> ->];
      [| split; reflexivity].
    destruct w as [k d | k d | k d | k d | d]; cbn in E1 |- *; unfold resolve_child; cbn;
      destruct (resolve_doc ct d) as [d' |]; cbn in E1 |- *; try discriminate.
    + injection E1 as <-. cbn. now rewrite !app_nil_r.
    + destruct (prospects s !! k); cbn in E1; [| discriminate].
      injection E1 as <-. cbn. now rewrite !app_nil_r.
    + injection E1 as <-. cbn. now rewrite !app_nil_r.
    + injection E1 as <-. cbn. now rewrite !app_nil_r.
    + injection E1 as <-. cbn. now rewrite !app_nil_r.
Qed.

(** A successful call with one record is the commit of that record's writes
    on the store left by its owner assignment. *)
Lemma import_single_commit auth caller data ct s raw parsed n :
  truthy_string auth = Some caller ->
  falsy data = false ->
  items_of rt (default JNull data) = inr [raw] ->
  prepare raw = inr parsed ->
  response (importProspects rt auth data ct s) = inr n ->
  let a := assign_owner parsed s in
  commit ct (record_writes rt caller parsed a.1.1 a.1.2) a.2
  = Some (final (importProspects rt auth data ct s)).
Proof.
  intros Hauth Hdata Hitems Hprep. cbv zeta. unfold importProspects.
  rewrite Hauth, Hdata, Hitems. cbn [import_loop]. rewrite Hprep.
  cbn [ls_batch ls_store ls_count ls_seen].
  destruct (assign_owner parsed s) as [[u nm] s1]. cbn [fst snd].
  cbn [ls_batch ls_store ls_count ls_seen app].
  destruct (commit ct (record_writes rt caller parsed u nm) s1) as [s' |]; [| discriminate].
  reflexivity.
Qed.

Lemma contact_writes_record caller parsed u n :
  contact_writes (record_writes rt caller parsed u n)
  = (fun c => ((p_tenantId parsed, normalizeId (p_domain parsed) (p_product parsed)),
               contact_fields c)) <$> default [] (p_contacts parsed).
Proof.
  unfold record_writes, contact_writes. rewrite !omap_app. cbn.
  assert (H2 : forall k (l : list Signal),
             omap (fun w => match w with WAddContact k d => Some (k, d) | _ => None end)
                  (map (fun g => WAddSignal k (signal_fields rt g)) l) = [])
    by (intros k l; induction l; auto).
  rewrite H2, app_nil_r.
  induction (default [] (p_contacts parsed)) as [| c l IH]; [reflexivity |].
  cbn. now rewrite IH.
Qed.

Lemma resolve_contact_fields ct c :
  resolve_doc ct (contact_fields c) = Some (contact_doc ct c).
Proof.
  unfold resolve_doc, contact_doc. case_decide as Hd; [reflexivity |].
  exfalso. apply Hd. intros k v Hk. apply elem_of_list_to_map_2 in Hk.
  unfold opt_field in Hk.
  destruct (ct_title c), (ct_email c), (ct_phone c), (ct_role c); cbn in Hk;
    repeat (apply elem_of_cons in Hk as [Hk | Hk]; [injection Hk as -> ->; cbn; eauto |]);
    inversion Hk.
Qed.

Lemma contact_doc_fields ct c :
  contact_doc ct c !! "name" = Some (FStr (ct_name c))
  /\ contact_doc ct c !! "createdAt" = Some (FTime ct)
  /\ contact_doc ct c !! "title" = FStr <$> ct_title c
  /\ contact_doc ct c !! "email" = FStr <$> ct_email c.
Proof.
  unfold contact_doc. rewrite !lookup_omap. unfold contact_fields, opt_field.
  destruct (ct_title c), (ct_email c), (ct_phone c), (ct_role c);
    repeat split; reflexivity.
Qed.

Lemma import_loop_store_fixed caller items : forall st,
  Forall (fun raw => forall p, prepare raw = inr p ->
                               is_Some (truthy_string (p_ownerUid p))) items ->
  ls_store (import_loop rt caller items st).1 = ls_store st.
Proof.
  induction items as [| raw items IH]; intros st HF; cbn [import_loop]; [reflexivity |].
  inversion HF as [| ? ? Hraw HF']; subst.
  destruct (prepare raw) as [err | parsed] eqn:Ep; [reflexivity |].
  destruct (Hraw parsed eq_refl) as [u Hu].
  unfold assign_owner. rewrite Hu. rewrite IH by assumption. reflexivity.
Qed.

End ImportEffects.

(** X3. A call in which every record that passes validation names its own
    owner performs no assignment at all: whatever its outcome, it leaves
    every rotation cursor as it was. *)
Theorem import_supplied_owners_skip_rotation (rt : Runtime) (auth : option string)
    (data : option json) (ct : Timestamp) (s : store) (items : list json) :
  items_of rt (default JNull data) = inr items ->
  Forall (fun raw => forall p, prepare raw = inr p ->
                               is_Some (truthy_string (p_ownerUid p))) items ->
  routing (final (importProspects rt auth data ct s)) = routing s.
Proof.
  intros Hitems HF. unfold importProspects.
  destruct (truthy_string auth) as [caller |]; [| reflexivity].
  destruct (falsy data); [reflexivity |]. rewrite Hitems.
  pose proof (import_loop_store_fixed rt caller items (mkLoop s [s] [] 0) HF) as Hst.
  destruct (import_loop rt caller items (mkLoop s [s] [] 0)) as [st e].
  cbn in Hst. destruct e as [err |]; cbn; [now rewrite Hst |].
  destruct (commit ct (ls_batch st) (ls_store st)) as [s' |] eqn:Ec; cbn;
    [| now rewrite Hst].
  apply commit_frame in Ec as (_ & -> & _). now rewrite Hst.
Qed.

Lemma import_supplied_owners_skip_rotation_witness :
  let raw := Example.state_u [("ownerUid", JStr "u9")] in
  Forall (fun raw => forall p, prepare raw = inr p ->
                               is_Some (truthy_string (p_ownerUid p))) [raw]
  /\ routing (final (importProspects Example.rt (Some "caller") (Some raw)
                       Example.t0 Example.two_sdrs))
     = routing Example.two_sdrs.
Proof.
  cbv zeta.
  assert (H : Forall (fun raw => forall p, prepare raw = inr p ->
                                 is_Some (truthy_string (p_ownerUid p)))
                     [Example.state_u [("ownerUid", JStr "u9")]]).
  { constructor; [| constructor]. intros p Hp. vm_compute in Hp.
    injection Hp as <-. cbn. eauto. }
  split; [exact H |].
  exact (import_supplied_owners_skip_rotation Example.rt (Some "caller")
           (Some (Example.state_u [("ownerUid", JStr "u9")])) Example.t0
           Example.two_sdrs _ eq_refl H).
Defined.

(** X4. What a committed one-record call stores as owner. A record that
    names its owner is stored with that [ownerUid] and with its own
    [ownerName] (or [null]). A record without owner, where [pickOwner]
    selects a pool member, is stored with the member's uid and with the
    member's display name, or else e-mail, or else uid, as [ownerName]: an
    [ownerName] carried by the record is not kept. *)
Theorem import_owner_stored (rt : Runtime) (auth : option string) (caller : string)
    (data : option json) (ct : Timestamp) (s : store) (raw : json) (parsed : Parsed)
    (n : Z) :
  truthy_string auth = Some caller ->
  falsy data = false ->
  items_of rt (default JNull data) = inr [raw] ->
  prepare raw = inr parsed ->
  response (importProspects rt auth data ct s) = inr n ->
  let o := importProspects rt auth data ct s in
  let key := (p_tenantId parsed, normalizeId (p_domain parsed) (p_product parsed)) in
  exists d : doc,
    prospects (final o) !! key = Some d
    /\ (forall u, truthy_string (p_ownerUid parsed) = Some u ->
          d !! "ownerUid" = Some (FStr u)
          /\ d !! "ownerName" = Some (str_or_null (p_ownerName parsed)))
    /\ (forall m, truthy_string (p_ownerUid parsed) = None ->
          (pickOwner (p_tenantId parsed) (p_region parsed) s).1 = Some m ->
          d !! "ownerUid" = Some (FStr (uid m))
          /\ d !! "ownerName"
             = Some (FStr (opt_or (displayName m) (opt_or (email m) (uid m))))).
Proof.
  intros Hauth Hdata Hitems Hprep Hresp. cbv zeta.
  destruct (import_single rt auth caller data ct s raw parsed n Hauth Hdata Hitems Hprep Hresp)
    as (_ & _ & (d' & Hd' & Hlook) & _).
  eexists. split; [exact Hlook |]. split.
  - intros u Hu. unfold assign_owner in Hd'. rewrite Hu in Hd'. cbn [fst snd] in Hd'.
    split; apply lookup_union_Some_l;
      rewrite (resolve_doc_lookup ct _ _ _ Hd'); reflexivity.
  - intros m Hnone Hm. unfold assign_owner in Hd'. rewrite Hnone in Hd'.
    destruct (pickOwner (p_tenantId parsed) (p_region parsed) s) as [chosen s1].
    cbn [fst] in Hm. subst chosen. cbn [fst snd] in Hd'.
    split; apply lookup_union_Some_l;
      rewrite (resolve_doc_lookup ct _ _ _ Hd'); reflexivity.
Qed.

Lemma import_owner_stored_witness :
  let raw := Example.state_u [("ownerName", JStr "Zed")] in
  let o := importProspects Example.rt (Some "caller") (Some raw) Example.t0
             Example.two_sdrs in
  response o = inr 1
  /\ exists d : doc,
       prospects (final o) !! ("acme", "state.edu_verity") = Some d
       /\ d !! "ownerUid" = Some (FStr "u1")
       /\ d !! "ownerName" = Some (FStr "ann@acme.test").
Proof.
  cbv zeta.
  set (raw := Example.state_u [("ownerName", JStr "Zed")]).
  set (parsed := mkParsed "acme" "State U" "state.edu" "verity" "" "" "" 0 "research"
                   [] "" [] None (Some "Zed") None None None None None None None).
  assert (Hr : response (importProspects Example.rt (Some "caller") (Some raw) Example.t0
                           Example.two_sdrs) = inr 1) by (vm_compute; reflexivity).
  assert (Hp : prepare raw = inr parsed) by (vm_compute; reflexivity).
  split; [exact Hr |].
  destruct (import_owner_stored Example.rt (Some "caller") "caller" (Some raw) Example.t0
              Example.two_sdrs raw parsed 1 eq_refl eq_refl eq_refl Hp Hr)
    as (d & Hd & _ & Hassigned).
  exists d. split; [exact Hd |].
  destruct (pickOwner "acme" "" Example.two_sdrs).1 as [m |] eqn:Em;
    [| vm_compute in Em; discriminate].
  destruct (Hassigned m eq_refl Em) as [H1 H2].
  vm_compute in Em. injection Em as <-. split; [exact H1 | exact H2].
Defined.

(** X5. Importing the same record a second time, with an owner named in the
    record and at the same server time, leaves the prospect collection
    exactly as the first import left it (one document per identity, no
    duplicate) and the rotation untouched, while the audit collection gets a
    second record and the record's contacts are stored a second time. *)
Theorem reimport_same_record (rt : Runtime) (auth : option string) (caller : string)
    (data : option json) (ct : Timestamp) (s : store) (raw : json) (parsed : Parsed)
    (n : Z) (u : string) :
  truthy_string auth = Some caller ->
  falsy data = false ->
  items_of rt (default JNull data) = inr [raw] ->
  prepare raw = inr parsed ->
  truthy_string (p_ownerUid parsed) = Some u ->
  response (importProspects rt auth data ct s) = inr n ->
  let o1 := importProspects rt auth data ct s in
  let o2 := importProspects rt auth data ct (final o1) in
  let key := (p_tenantId parsed, normalizeId (p_domain parsed) (p_product parsed)) in
  response o2 = inr 1
  /\ prospects (final o2) = prospects (final o1)
  /\ routing (final o2) = routing s
  /\ audit (final o2) = audit s ++ [audit_doc ct key.1 key.2 caller;
                                    audit_doc ct key.1 key.2 caller]
  /\ contacts (final o2)
     = contacts s
       ++ ((fun c => (key, contact_doc ct c)) <$> default [] (p_contacts parsed))
       ++ ((fun c => (key, contact_doc ct c)) <$> default [] (p_contacts parsed)).
Proof.
  intros Hauth Hdata Hitems Hprep Hu Hresp. cbv zeta.
  set (o1 := importProspects rt auth data ct s).
  assert (Hresp2 : response (importProspects rt auth data ct (final o1)) = inr n)
    by (rewrite (import_response_any_store rt auth data ct (final o1) s); exact Hresp).
  destruct (import_single rt auth caller data ct s raw parsed n Hauth Hdata Hitems Hprep Hresp)
    as (-> & Hr1 & (d1 & Hd1 & Hk1) & Ho1).
  destruct (import_single rt auth caller data ct (final o1) raw parsed 1
              Hauth Hdata Hitems Hprep Hresp2)
    as (_ & Hr2 & (d2 & Hd2 & Hk2) & Ho2).
  pose proof (import_single_commit rt auth caller data ct s raw parsed 1
                Hauth Hdata Hitems Hprep Hresp) as Hc1.
  pose proof (import_single_commit rt auth caller data ct (final o1) raw parsed 1
                Hauth Hdata Hitems Hprep Hresp2) as Hc2.
  fold o1 in Hr1, Hk1, Ho1, Hc1.
  unfold assign_owner in Hr1, Hd1, Hr2, Hd2, Hc1, Hc2.
  rewrite Hu in Hr1, Hd1, Hr2, Hd2, Hc1, Hc2. cbn [fst snd] in *.
  assert (d2 = d1) as -> by congruence.
  split; [exact Hresp2 |]. split; [| split; [congruence | split]].
  - apply map_eq. intros k.
    destruct (decide (k = (p_tenantId parsed,
                           normalizeId (p_domain parsed) (p_product parsed)))) as [-> | Hne].
    + rewrite Hk2, Hk1. cbn. f_equal.
      now rewrite (assoc_L (∪)), (idemp_L (∪)).
    + now rewrite Ho2.
  - pose proof (commit_frame ct _ _ _ Hc1) as (_ & _ & _ & _ & Ha1).
    pose proof (commit_frame ct _ _ _ Hc2) as (_ & _ & _ & _ & Ha2).
    rewrite Ha2, Ha1, <- app_assoc. f_equal.
    rewrite !audit_writes_record. cbn [omap list_omap].
    now rewrite !resolve_audit_fields.
  - destruct (commit_children ct _ _ _ Hc1) as [Hch1 _].
    destruct (commit_children ct _ _ _ Hc2) as [Hch2 _].
    rewrite Hch2, Hch1, <- app_assoc. do 2 f_equal.
    all: rewrite contact_writes_record;
      induction (default [] (p_contacts parsed)) as [| c l IH]; [reflexivity |];
      cbn [fmap list_fmap omap list_omap]; unfold resolve_child at 1; cbn [fst snd];
      rewrite resolve_contact_fields; cbn; f_equal; exact IH.
Qed.

Lemma reimport_same_record_witness :
  let raw := Example.state_u [("ownerUid", JStr "u9");
                              ("contacts", JArr [JObj [("name", JStr "Dana")]])] in
  let o1 := importProspects Example.rt (Some "caller") (Some raw) Example.t0
              Example.no_roles in
  let o2 := importProspects Example.rt (Some "caller") (Some raw) Example.t0 (final o1) in
  response o1 = inr 1
  /\ prospects (final o2) = prospects (final o1)
  /\ length (contacts (final o2)) = 2%nat.
Proof.
  cbv zeta.
  set (raw := Example.state_u [("ownerUid", JStr "u9");
                               ("contacts", JArr [JObj [("name", JStr "Dana")]])]).
  set (parsed := mkParsed "acme" "State U" "state.edu" "verity" "" "" "" 0 "research"
                   [] "" [] (Some "u9") None None None None None None
                   (Some [mkContact "Dana" None None None None]) None).
  assert (Hr : response (importProspects Example.rt (Some "caller") (Some raw) Example.t0
                           Example.no_roles) = inr 1) by (vm_compute; reflexivity).
  assert (Hp : prepare raw = inr parsed) by (vm_compute; reflexivity).
  split; [exact Hr |].
  destruct (reimport_same_record Example.rt (Some "caller") "caller" (Some raw) Example.t0
              Example.no_roles raw parsed 1 "u9" eq_refl eq_refl eq_refl Hp eq_refl Hr)
    as (_ & Hpr & _ & _ & Hc).
  split; [exact Hpr |]. rewrite Hc. reflexivity.
Defined.

(** X6. A committed one-record call appends one contact document per
    contact of the record, in order, under the record's prospect, after the
    contacts already stored (nothing is matched against them); each holds
    the contact's name, the optional fields that were given, and the server
    time of the commit as [createdAt]. *)
Theorem import_appends_contacts (rt : Runtime) (auth : option string) (caller : string)
    (data : option json) (ct : Timestamp) (s : store) (raw : json) (parsed : Parsed)
    (n : Z) :
  truthy_string auth = Some caller ->
  falsy data = false ->
  items_of rt (default JNull data) = inr [raw] ->
  prepare raw = inr parsed ->
  response (importProspects rt auth data ct s) = inr n ->
  let o := importProspects rt auth data ct s in
  let key := (p_tenantId parsed, normalizeId (p_domain parsed) (p_product parsed)) in
  contacts (final o)
  = contacts s ++ ((fun c => (key, contact_doc ct c)) <$> default [] (p_contacts parsed))
  /\ forall c, contact_doc ct c !! "name" = Some (FStr (ct_name c))
               /\ contact_doc ct c !! "createdAt" = Some (FTime ct)
               /\ contact_doc ct c !! "title" = FStr <$> ct_title c
               /\ contact_doc ct c !! "email" = FStr <$> ct_email c.
Proof.
  intros Hauth Hdata Hitems Hprep Hresp. cbv zeta.
  split; [| apply contact_doc_fields].
  pose proof (import_single_commit rt auth caller data ct s raw parsed n
                Hauth Hdata Hitems Hprep Hresp) as Hc.
  cbv zeta in Hc.
  pose proof (assign_owner_same_data parsed s) as (_ & _ & Hsame & _).
  destruct (commit_children ct _ _ _ Hc) as [-> _]. rewrite <- Hsame. f_equal.
  rewrite contact_writes_record.
  induction (default [] (p_contacts parsed)) as [| c l IH]; [reflexivity |].
  cbn [fmap list_fmap omap list_omap]. unfold resolve_child at 1. cbn [fst snd].
  rewrite resolve_contact_fields. cbn. f_equal. exact IH.
Qed.

Lemma import_appends_contacts_witness :
  let raw := Example.state_u [("contacts", JArr [JObj [("name", JStr "Dana")]])] in
  let o := importProspects Example.rt (Some "caller") (Some raw) Example.t0
             Example.no_roles in
  response o = inr 1
  /\ contacts (final o)
     = [(("acme", "state.edu_verity"),
         contact_doc Example.t0 (mkContact "Dana" None None None None))].
Proof.
  cbv zeta.
  set (raw := Example.state_u [("contacts", JArr [JObj [("name", JStr "Dana")]])]).
  set (parsed := mkParsed "acme" "State U" "state.edu" "verity" "" "" "" 0 "research"
                   [] "" [] None None None None None None None
                   (Some [mkContact "Dana" None None None None]) None).
  assert (Hr : response (importProspects Example.rt (Some "caller") (Some raw) Example.t0
                           Example.no_roles) = inr 1) by (vm_compute; reflexivity).
  assert (Hp : prepare raw = inr parsed) by (vm_compute; reflexivity).
  split; [exact Hr |].
  exact (proj1 (import_appends_contacts Example.rt (Some "caller") "caller" (Some raw)
                  Example.t0 Example.no_roles raw parsed 1
                  eq_refl eq_refl eq_refl Hp Hr)).
Defined.

(** ** Identity and validation *)

Section Identity.

Lemma toLowerCase_idem s : JS.toLowerCase (JS.toLowerCase s) = JS.toLowerCase s.
Proof. induction s as [| c s IH]; cbn; [reflexivity |]. now rewrite lower_char_idem, IH. Qed.

Lemma strip_lower_comm s :
  JS.strip_spaces (JS.toLowerCase s) = JS.toLowerCase (JS.strip_spaces s).
Proof.
  induction s as [| c s IH]; cbn; [reflexivity |].
  rewrite is_space_lower_char. destruct (JS.is_space c); cbn; now rewrite IH.
Qed.

Lemma strip_trimStart s : JS.strip_spaces (JS.trimStart s) = JS.strip_spaces s.
Proof.
  induction s as [| c s IH]; cbn; [reflexivity |].
  destruct (JS.is_space c) eqn:E; [exact IH |]. cbn. now rewrite E.
Qed.

Lemma strip_trimEnd s : JS.strip_spaces (JS.trimEnd s) = JS.strip_spaces s.
Proof.
  induction s as [| c s IH]; cbn; [reflexivity |].
  destruct (JS.trimEnd s) as [| a t] eqn:Et.
  - cbn in IH. rewrite <- IH. destruct (JS.is_space c) eqn:E; cbn; now rewrite ?E.
  - change (JS.strip_spaces (String c (String a t)))
      with (if JS.is_space c then JS.strip_spaces (String a t)
            else String c (JS.strip_spaces (String a t))).
    now rewrite IH.
Qed.

(** The trimming and lower-casing done by the schema are absorbed by
    [normalizeId]. *)
Lemma normalizeId_of_parsed_domain d product :
  normalizeId (JS.toLowerCase (JS.trim d)) product = normalizeId d product.
Proof.
  unfold normalizeId, JS.trim.
  now rewrite strip_lower_comm, toLowerCase_idem, strip_trimEnd, strip_trimStart.
Qed.

Lemma list_ascii_app a b :
  list_ascii_of_string (a ++ b)%string
  = list_ascii_of_string a ++ list_ascii_of_string b.
Proof.
  induction a as [| c a IH]; [reflexivity |].
  change (list_ascii_of_string (String c a ++ b)%string)
    with (c :: list_ascii_of_string (a ++ b)%string).
  now rewrite IH.
Qed.

Lemma list_ascii_inj a b : list_ascii_of_string a = list_ascii_of_string b -> a = b.
Proof.
  intros E. rewrite <- (string_of_list_ascii_of_string a),
              <- (string_of_list_ascii_of_string b). now rewrite E.
Qed.

End Identity.

(** X7. Two identities are equal only if they were made from the same
    product and from domains with the same normal form (white space
    removed, lower case): distinct (normalized domain, product) pairs never
    share a prospect document. *)
Theorem normalizeId_injective (d1 d2 p1 p2 : string) :
  p1 ∈ products -> p2 ∈ products ->
  normalizeId d1 p1 = normalizeId d2 p2 ->
  JS.toLowerCase (JS.strip_spaces d1) = JS.toLowerCase (JS.strip_spaces d2)
  /\ p1 = p2.
Proof.
  intros H1 H2 E. unfold normalizeId in E.
  apply (f_equal list_ascii_of_string) in E.
  rewrite !list_ascii_app in E. apply (f_equal (@rev ascii)) in E.
  rewrite !rev_app_distr in E. unfold products in H1, H2.
  repeat (apply elem_of_cons in H1 as [-> | H1]);
    repeat (apply elem_of_cons in H2 as [-> | H2]);
    try (now inversion H1); try (now inversion H2);
    cbn in E; try discriminate E;
    (split; [| reflexivity]);
    apply list_ascii_inj, rev_inj; congruence.
Qed.

Lemma normalizeId_injective_witness :
  ("verity" ∈ products /\ normalizeId "A.edu" "verity" = normalizeId " a.EDU" "verity")
  /\ JS.toLowerCase (JS.strip_spaces "A.edu") = JS.toLowerCase (JS.strip_spaces " a.EDU").
Proof.
  assert (H : "verity" ∈ products) by (unfold products; apply elem_of_cons; now left).
  split; [split; [exact H | reflexivity] |].
  exact (proj1 (normalizeId_injective "A.edu" " a.EDU" "verity" "verity" H H eq_refl)).
Defined.

Section Schema.

Ltac bind_inv H :=
  unfold mbind, result_bind in H;
  repeat match type of H with
         | match ?x with inl _ => _ | inr _ => _ end = inr _ =>
             let E := fresh "E" in destruct x eqn:E; [discriminate H |]
         end.

Lemma zod_string_inv path v s : Zod.string_ path v = inr s -> v = Some (JStr s).
Proof. destruct v as [[] |]; cbn; congruence. Qed.

Lemma zod_string_min_inv n path v s :
  Zod.string_min n path v = inr s -> v = Some (JStr s) /\ (n <= String.length s)%nat.
Proof.
  unfold Zod.string_min, mbind, result_bind.
  destruct (Zod.string_ path v) as [| s'] eqn:E; [discriminate |].
  apply zod_string_inv in E.
  destruct (Nat.leb_spec n (String.length s')); [| discriminate].
  intros [= <-]. auto.
Qed.

Lemma zod_enum_inv opts path v s :
  Zod.enum opts path v = inr s -> v = Some (JStr s) /\ s ∈ opts.
Proof.
  unfold Zod.enum, mbind, result_bind.
  destruct (Zod.string_ path v) as [| s'] eqn:E; [discriminate |].
  apply zod_string_inv in E.
  destruct (JS.includes opts s') eqn:Ei; [| discriminate].
  intros [= <-]. split; [exact E | now apply includes_elem_of].
Qed.

Lemma zod_enum_default_inv opts d path v s :
  d ∈ opts -> Zod.enum_default opts d path v = inr s -> s ∈ opts.
Proof.
  intros Hd. unfold Zod.enum_default. destruct v as [j |].
  - intros H. now apply zod_enum_inv in H.
  - now intros [= <-].
Qed.

Lemma zod_optional_enum_inv opts d path v o :
  d ∈ opts -> Zod.optional (Zod.enum_default opts d) path v = inr o ->
  forall x, o = Some x -> x ∈ opts.
Proof.
  intros Hd. unfold Zod.optional. destruct v as [j |].
  - unfold fmap, result_fmap.
    destruct (Zod.enum_default opts d path (Some j)) as [| s] eqn:E; [discriminate |].
    intros [= <-] x [= <-]. eapply zod_enum_default_inv; eassumption.
  - intros [= <-] x [=].
Qed.

(** What [prepare] has checked when it returns a record. *)
Lemma prepare_inv raw parsed :
  prepare raw = inr parsed ->
  (jget (own_fields raw) "tenantId" = Some (JStr (p_tenantId parsed))
   /\ (1 <= String.length (p_tenantId parsed))%nat)
  /\ (jget (own_fields raw) "institutionName" = Some (JStr (p_institutionName parsed))
      /\ (2 <= String.length (p_institutionName parsed))%nat)
  /\ (exists d, jget (own_fields raw) "domain" = Some (JStr d)
                /\ p_domain parsed = JS.toLowerCase (JS.trim d))
  /\ (exists pr, jget (own_fields raw) "product" = Some (JStr pr)
                 /\ p_product parsed = JS.toLowerCase pr
                 /\ p_product parsed ∈ products)
  /\ p_stage parsed ∈ stages
  /\ (forall x, p_status parsed = Some x -> x ∈ statuses)
  /\ (forall x, p_priority parsed = Some x -> x ∈ priorities).
Proof.
  unfold prepare. intros H.
  unfold mbind at 1, result_bind at 1 in H.
  destruct (fold_product raw) as [| product] eqn:Ef; [discriminate |].
  unfold ProspectSchema_parse in H. cbn [jget String.eqb Ascii.eqb Bool.eqb] in H.
  bind_inv H. injection H as <-. cbn [p_tenantId p_institutionName p_domain p_product
                                       p_stage p_status p_priority].
  repeat match goal with
         | E : Zod.string_min _ _ _ = inr _ |- _ => apply zod_string_min_inv in E
         | E : Zod.enum products _ _ = inr _ |- _ => apply zod_enum_inv in E as [E ?]
         end.
  split; [assumption |]. split; [assumption |]. split.
  { match goal with
    | E : _ <$> Zod.string_ "domain" ?v = inr _ |- _ =>
        destruct (Zod.string_ "domain" v) as [| d] eqn:Ed; [discriminate E |];
        apply zod_string_inv in Ed; injection E as <-; eauto
    end. }
  split.
  { match goal with E : Some (JStr product) = Some (JStr _) |- _ => injection E as <- end.
    assert (Hne : product <> "").
    { intros ->. match goal with Hin : "" ∈ products |- _ =>
        unfold products in Hin;
        repeat (apply elem_of_cons in Hin as [Hin | Hin]; [discriminate Hin |]);
        inversion Hin end. }
    unfold fold_product in Ef. destruct raw; try discriminate Ef;
      cbn [own_fields] in *;
      repeat match type of Ef with
             | match ?x with _ => _ end = _ => destruct x eqn:?; try discriminate Ef
             | (if ?b then _ else _) = _ => destruct b; try discriminate Ef
             end;
      injection Ef as Ef; try (now subst product); eauto. }
  split.
  { match goal with E : Zod.enum_default stages _ _ _ = inr _ |- _ =>
      eapply zod_enum_default_inv; [| exact E] end.
    unfold stages. apply list_elem_of_In. cbn. tauto. }
  split.
  { match goal with E : Zod.optional (Zod.enum_default statuses _) _ _ = inr _ |- _ =>
      eapply zod_optional_enum_inv; [| exact E] end.
    unfold statuses. apply list_elem_of_In. cbn. tauto. }
  { match goal with E : Zod.optional (Zod.enum_default priorities _) _ _ = inr _ |- _ =>
      eapply zod_optional_enum_inv; [| exact E] end.
    unfold priorities. apply list_elem_of_In. cbn. tauto. }
Qed.

Lemma jget_skip fs1 k v fs2 key :
  key <> k -> jget (fs1 ++ (k, v) :: fs2) key = jget (fs1 ++ fs2) key.
Proof.
  intros Hne. induction fs1 as [| [k' v'] fs1 IH]; cbn.
  - destruct (String.eqb_spec key k); [contradiction | reflexivity].
  - now rewrite IH.
Qed.

End Schema.

Section Trim.

Lemma trimStart_head s :
  JS.trimStart s = "" \/ exists c r, JS.trimStart s = String c r /\ JS.is_space c = false.
Proof.
  induction s as [| c s IH]; cbn; [now left |].
  destruct (JS.is_space c) eqn:E; [exact IH | right; eauto].
Qed.

Lemma trimEnd_head c r :
  JS.is_space c = false -> exists t, JS.trimEnd (String c r) = String c t.
Proof. intros E. cbn. rewrite E. destruct (JS.trimEnd r); eauto. Qed.

Lemma trimEnd_idem s : JS.trimEnd (JS.trimEnd s) = JS.trimEnd s.
Proof.
  induction s as [| c s IH]; [reflexivity |].
  cbn [JS.trimEnd]. destruct (JS.trimEnd s) as [| a t] eqn:Et.
  - destruct (JS.is_space c) eqn:E; [reflexivity |]. cbn. now rewrite E.
  - change (JS.trimEnd (String c (String a t)))
      with (match JS.trimEnd (String a t) with
            | EmptyString => if JS.is_space c then EmptyString else String c EmptyString
            | x => String c x
            end).
    now rewrite IH.
Qed.

Lemma trim_idem s : JS.trim (JS.trim s) = JS.trim s.
Proof.
  unfold JS.trim. destruct (trimStart_head s) as [-> | (c & r & -> & E)]; [reflexivity |].
  destruct (trimEnd_head c r E) as [t Ht]. rewrite Ht.
  assert (Hs : JS.trimStart (String c t) = String c t) by (cbn; now rewrite E).
  rewrite Hs, <- Ht. apply trimEnd_idem.
Qed.

Lemma trimStart_lower s : JS.trimStart (JS.toLowerCase s) = JS.toLowerCase (JS.trimStart s).
Proof.
  induction s as [| c s IH]; [reflexivity |]. cbn.
  rewrite is_space_lower_char. destruct (JS.is_space c); [exact IH | reflexivity].
Qed.

Lemma trimEnd_lower s : JS.trimEnd (JS.toLowerCase s) = JS.toLowerCase (JS.trimEnd s).
Proof.
  induction s as [| c s IH]; [reflexivity |]. cbn [JS.toLowerCase JS.trimEnd].
  rewrite IH, is_space_lower_char.
  destruct (JS.trimEnd s); cbn; [now destruct (JS.is_space c) | reflexivity].
Qed.

Lemma trim_lower s : JS.trim (JS.toLowerCase s) = JS.toLowerCase (JS.trim s).
Proof. unfold JS.trim. now rewrite trimStart_lower, trimEnd_lower. Qed.

End Trim.

(** X8. Two accepted records of the same tenant whose domains differ only
    in white space and letter case, and whose products differ only in letter
    case, address the same prospect document: the trimming and lower-casing
    of the schema and the normalisation of the identity agree. *)
Theorem equivalent_records_same_document (raw1 raw2 : json) (p1 p2 : Parsed)
    (d1 d2 pr1 pr2 : string) :
  prepare raw1 = inr p1 -> prepare raw2 = inr p2 ->
  p_tenantId p1 = p_tenantId p2 ->
  jget (own_fields raw1) "domain" = Some (JStr d1) ->
  jget (own_fields raw2) "domain" = Some (JStr d2) ->
  jget (own_fields raw1) "product" = Some (JStr pr1) ->
  jget (own_fields raw2) "product" = Some (JStr pr2) ->
  ws_case_equiv d1 d2 ->
  JS.toLowerCase pr1 = JS.toLowerCase pr2 ->
  staged_id (p1, FNull, FNull) = staged_id (p2, FNull, FNull)
  /\ staged_id (p1, FNull, FNull) = (p_tenantId p1, normalizeId d1 (JS.toLowerCase pr1)).
Proof.
  intros H1 H2 Ht Hd1 Hd2 Hp1 Hp2 Hd Hp.
  apply prepare_inv in H1 as (_ & _ & (d1' & Hd1' & E1) & (pr1' & Hpr1' & F1 & _) & _).
  apply prepare_inv in H2 as (_ & _ & (d2' & Hd2' & E2) & (pr2' & Hpr2' & F2 & _) & _).
  assert (d1' = d1) as -> by congruence. assert (d2' = d2) as -> by congruence.
  assert (pr1' = pr1) as -> by congruence. assert (pr2' = pr2) as -> by congruence.
  unfold staged_id. cbn [fst snd].
  rewrite E1, E2, F1, F2, !normalizeId_of_parsed_domain, Ht, Hp.
  split; [| reflexivity]. f_equal. unfold normalizeId.
  now rewrite (strip_lower_equiv _ _ Hd).
Qed.

Lemma equivalent_records_same_document_witness :
  let raw1 := Example.state_u [] in
  let raw2 := JObj [("tenantId", JStr "acme"); ("institutionName", JStr "State Univ");
                    ("domain", JStr "state.edu"); ("product", JStr "VERITY")] in
  ws_case_equiv "State.EDU " "state.edu"
  /\ (exists p1 p2, prepare raw1 = inr p1 /\ prepare raw2 = inr p2
                    /\ staged_id (p1, FNull, FNull) = staged_id (p2, FNull, FNull)).
Proof.
  cbv zeta.
  set (raw2 := JObj [("tenantId", JStr "acme"); ("institutionName", JStr "State Univ");
                     ("domain", JStr "state.edu"); ("product", JStr "VERITY")]).
  set (p2 := mkParsed "acme" "State Univ" "state.edu" "verity" "" "" "" 0 "research"
               [] "" [] None None None None None None None None None).
  assert (Hd : ws_case_equiv "State.EDU " "state.edu").
  { do 9 (apply wce_char; [reflexivity |]). apply wce_skip_l; [reflexivity | apply wce_nil]. }
  assert (H1 : prepare (Example.state_u []) = inr Example.state_u_parsed)
    by (vm_compute; reflexivity).
  assert (H2 : prepare raw2 = inr p2) by (vm_compute; reflexivity).
  split; [exact Hd |].
  exists Example.state_u_parsed, p2. split; [exact H1 |]. split; [exact H2 |].
  exact (proj1 (equivalent_records_same_document (Example.state_u []) raw2
                  Example.state_u_parsed p2 "State.EDU " "state.edu" "Verity" "VERITY"
                  H1 H2 eq_refl eq_refl eq_refl eq_refl eq_refl Hd eq_refl)).
Defined.

(** X9. Every record that passes line 87 has a non-empty tenant, an
    institution name of at least two code units, a domain that is trimmed
    and in lower case, a product that is the lower-case form of the input
    and one of verity, panorama, lumina, a stage among the four stages, a
    status and a priority (when present) among theirs, and a score in
    [0,100]. *)
Theorem accepted_record_constraints (raw : json) (parsed : Parsed) :
  prepare raw = inr parsed ->
  (1 <= String.length (p_tenantId parsed))%nat
  /\ (2 <= String.length (p_institutionName parsed))%nat
  /\ JS.trim (p_domain parsed) = p_domain parsed
  /\ JS.toLowerCase (p_domain parsed) = p_domain parsed
  /\ p_product parsed ∈ products
  /\ (exists pr, jget (own_fields raw) "product" = Some (JStr pr)
                 /\ p_product parsed = JS.toLowerCase pr)
  /\ p_stage parsed ∈ stages
  /\ (forall x, p_status parsed = Some x -> x ∈ statuses)
  /\ (forall x, p_priority parsed = Some x -> x ∈ priorities)
  /\ 0 <= p_score parsed <= 100.
Proof.
  intros H. pose proof (prepare_score_range raw parsed H) as Hscore.
  apply prepare_inv in H
    as ((_ & Ht) & (_ & Hi) & (d & _ & Hd) & (pr & Hpr & Hlow & Hin) & Hst & Hstat & Hprio).
  repeat split; try assumption; try apply Hscore.
  - rewrite Hd, trim_lower, trim_idem. reflexivity.
  - rewrite Hd. apply toLowerCase_idem.
  - eauto.
Qed.

Lemma accepted_record_constraints_witness :
  prepare (Example.state_u []) = inr Example.state_u_parsed
  /\ p_product Example.state_u_parsed ∈ products
  /\ JS.trim (p_domain Example.state_u_parsed) = p_domain Example.state_u_parsed.
Proof.
  assert (H : prepare (Example.state_u []) = inr Example.state_u_parsed)
    by (vm_compute; reflexivity).
  split; [exact H |].
  destruct (accepted_record_constraints _ _ H) as (_ & _ & Htrim & _ & Hin & _).
  split; [exact Hin | exact Htrim].
Defined.

(** X10. A [score] that is present but is not a number is rejected: a
    string (as every field of a CSV record is), [null], a boolean. Only an
    absent [score] gets the default. *)
Theorem non_numeric_score_rejected (raw : json) (v : json) :
  jget (own_fields raw) "score" = Some v ->
  (forall q, v <> JNum q) ->
  exists err, prepare raw = inl err.
Proof.
  intros Hv Hnot. unfold prepare.
  unfold mbind at 1, result_bind at 1.
  destruct (fold_product raw) as [| product]; [eauto |].
  unfold ProspectSchema_parse. cbn [jget String.eqb Ascii.eqb Bool.eqb].
  rewrite Hv. unfold mbind, result_bind.
  repeat match goal with
         | |- exists e, match ?x with inl _ => _ | inr _ => _ end = inl e =>
             lazymatch x with
             | Zod.int_range_default _ _ _ _ _ => fail
             | _ => destruct x; [eauto |]
             end
         end.
  unfold Zod.int_range_default.
  destruct v as [| b | q | str | l | fs]; eauto.
  exfalso. now apply (Hnot q).
Qed.

Lemma non_numeric_score_rejected_witness :
  jget (own_fields (Example.state_u [("score", JStr "50")])) "score" = Some (JStr "50")
  /\ exists err, prepare (Example.state_u [("score", JStr "50")]) = inl err.
Proof.
  assert (H : jget (own_fields (Example.state_u [("score", JStr "50")])) "score"
              = Some (JStr "50")) by reflexivity.
  split; [exact H |].
  exact (non_numeric_score_rejected _ _ H ltac:(intros q; discriminate)).
Defined.

(** X11. A property of the input whose name is not a key of the schema has
    no effect: the record is accepted or rejected, and parsed, exactly as
    without it, wherever the property stands in the object. *)
Theorem unknown_key_ignored (fs1 fs2 : list (string * json)) (k : string) (v : json) :
  k ∉ schema_keys ->
  prepare (JObj (fs1 ++ (k, v) :: fs2)) = prepare (JObj (fs1 ++ fs2)).
Proof.
  intros Hk.
  assert (Hne : forall key, key ∈ schema_keys -> key <> k) by (intros key Hin ->; auto).
  assert (Hj : forall key, key ∈ schema_keys ->
            jget (fs1 ++ (k, v) :: fs2) key = jget (fs1 ++ fs2) key)
    by (intros key Hin; apply jget_skip, Hne, Hin).
  assert (Hmem : forall key, In key schema_keys -> key ∈ schema_keys)
    by (intros key Hin; now apply list_elem_of_In).
  unfold prepare, fold_product, ProspectSchema_parse. cbn [own_fields].
  cbn [jget String.eqb Ascii.eqb Bool.eqb].
  rewrite !Hj by (apply Hmem; cbn; tauto). reflexivity.
Qed.

Lemma unknown_key_ignored_witness :
  ("notes" ∉ schema_keys)
  /\ prepare (JObj ([("tenantId", JStr "acme")]
                      ++ (("notes", JStr "x")
                          :: [("institutionName", JStr "State U"); ("domain", JStr "s.edu");
                              ("product", JStr "lumina")])))
     = prepare (JObj ([("tenantId", JStr "acme")]
                      ++ [("institutionName", JStr "State U"); ("domain", JStr "s.edu");
                          ("product", JStr "lumina")])).
Proof.
  assert (H : "notes" ∉ schema_keys).
  { intros Hin. apply list_elem_of_In in Hin. cbn in Hin.
    repeat (destruct Hin as [Hin | Hin]; [discriminate Hin |]). exact Hin. }
  split; [exact H |].
  exact (unknown_key_ignored _ _ "notes" (JStr "x") H).
Defined.

(** ** Role management *)

Section Roles.

Lemma N_of_ascii_inj a b : N_of_ascii a = N_of_ascii b -> a = b.
Proof.
  intros E. rewrite <- (ascii_N_embedding a), <- (ascii_N_embedding b). now rewrite E.
Qed.

Lemma ascii_compare_refl a : Ascii.compare a a = Eq.
Proof. unfold Ascii.compare. apply N.compare_refl. Qed.

Lemma string_compare_refl s : String.compare s s = Eq.
Proof. induction s as [| c s IH]; cbn; [reflexivity |]. now rewrite ascii_compare_refl. Qed.

Lemma string_ltb_irrefl s : String.ltb s s = false.
Proof. unfold String.ltb. now rewrite string_compare_refl. Qed.

Lemma string_compare_lt_trans : forall a b c,
  String.compare a b = Lt -> String.compare b c = Lt -> String.compare a c = Lt.
Proof.
  induction a as [| x a IH]; intros [| y b] [| z c]; cbn; try congruence.
  unfold Ascii.compare.
  destruct (N.compare_spec (N_of_ascii x) (N_of_ascii y)) as [Exy | Lxy | Gxy];
    try discriminate;
    destruct (N.compare_spec (N_of_ascii y) (N_of_ascii z)) as [Eyz | Lyz | Gyz];
    try discriminate;
    destruct (N.compare_spec (N_of_ascii x) (N_of_ascii z)) as [Exz | Lxz | Gxz];
    try reflexivity; try lia.
  apply IH.
Qed.

Lemma string_ltb_trans a b c :
  String.ltb a b = true -> String.ltb b c = true -> String.ltb a c = true.
Proof.
  unfold String.ltb. intros H1 H2.
  destruct (String.compare a b) eqn:E1; try discriminate.
  destruct (String.compare b c) eqn:E2; try discriminate.
  now rewrite (string_compare_lt_trans a b c E1 E2).
Qed.

Lemma string_ltb_total a b :
  String.eqb a b = false -> String.ltb a b = false -> String.ltb b a = true.
Proof.
  unfold String.ltb. intros Hne Hlt. rewrite String.compare_antisym.
  destruct (String.compare a b) eqn:E; cbn; try discriminate; [| reflexivity].
  apply String.compare_eq_iff in E. apply String.eqb_neq in Hne. contradiction.
Qed.

Lemma find_put_role_other id id' d l :
  id' <> id -> find_role id' (put_role id d l) = find_role id' l.
Proof.
  intros Hne.
  assert (Hf : String.eqb id' id = false) by now apply String.eqb_neq.
  induction l as [| [k d'] l IH]; cbn; [now rewrite Hf |].
  destruct (String.eqb_spec id k) as [-> | Hk]; cbn; [now rewrite Hf |].
  destruct (String.ltb id k); cbn; [now rewrite Hf |].
  now rewrite IH.
Qed.

Lemma Forall_put_role (P : string * RoleDoc -> Prop) id d l :
  P (id, d) -> Forall P l -> Forall P (put_role id d l).
Proof.
  intros Hp HF. induction HF as [| [k d'] l Hk HF IH]; cbn; [now constructor |].
  destruct (String.eqb id k); [now constructor |].
  destruct (String.ltb id k); repeat constructor; assumption.
Qed.

Lemma put_role_sorted id d l : sorted_ids l -> sorted_ids (put_role id d l).
Proof.
  unfold sorted_ids. induction 1 as [| [k d'] l Hs IH Hall]; cbn.
  - repeat constructor.
  - destruct (String.eqb_spec id k) as [-> | Hne].
    + constructor; assumption.
    + destruct (String.ltb id k) eqn:Hlt.
      * constructor; [constructor; assumption |].
        constructor; [exact Hlt |].
        eapply Forall_impl; [exact Hall |]. intros y Hy. cbn in *.
        eapply string_ltb_trans; eassumption.
      * constructor; [exact IH |].
        apply Forall_put_role; [| exact Hall]. cbn.
        apply string_ltb_total; [now apply String.eqb_neq | exact Hlt].
Qed.

Lemma sorted_ids_NoDup l : sorted_ids l -> NoDup l.*1.
Proof.
  unfold sorted_ids. induction 1 as [| [k d] l Hs IH Hall]; cbn; constructor; [| exact IH].
  intros Hin. apply list_elem_of_fmap in Hin as ([k' d'] & E & Hin). cbn in E. subst k'.
  rewrite Forall_forall in Hall. specialize (Hall _ Hin). cbn in Hall.
  now rewrite string_ltb_irrefl in Hall.
Qed.

Lemma NoDup_fst_unique (l : list (string * RoleDoc)) id d1 d2 :
  NoDup l.*1 -> (id, d1) ∈ l -> (id, d2) ∈ l -> d1 = d2.
Proof.
  induction l as [| [k d] l IH]; cbn; intros Hnd H1 H2; [inversion H1 |].
  apply NoDup_cons in Hnd as [Hk Hnd].
  assert (Hfst : forall x, (k, x) ∈ l -> False).
  { intros x Hx. apply Hk. apply list_elem_of_fmap. now exists (k, x). }
  apply elem_of_cons in H1 as [[= -> ->] | H1]; apply elem_of_cons in H2 as [[= E] | H2];
    subst; try reflexivity; try (exfalso; eapply Hfst; eassumption).
  now apply IH.
Qed.

End Roles.

(** X12. [setUserRoleByEmail] writes only when the caller's own role
    document grants ["admin"] for the tenant ["global"]. A call that throws
    leaves the store as it was; a call that succeeds changes nothing but the
    role document of the user it returns: every other role document, and
    every other collection, is as before. *)
Theorem role_update_authorized_and_local (rt : Runtime) (auth : option string)
    (rq : RoleRequest) (s : store) :
  let res := setUserRoleByEmail rt auth rq s in
  (forall err, res.2 = inl err -> res.1 = s)
  /\ (forall id, res.2 = inr id ->
        (exists caller m,
            truthy_string auth = Some caller
            /\ find_role caller (roles s) ≫= rd_tenants = Some m
            /\ m !! "global" = Some "admin")
        /\ (forall id', id' <> id -> find_role id' (roles res.1) = find_role id' (roles s))
        /\ routing res.1 = routing s /\ prospects res.1 = prospects s
        /\ contacts res.1 = contacts s /\ signals res.1 = signals s
        /\ audit res.1 = audit s).
Proof.
  cbv zeta. unfold setUserRoleByEmail.
  destruct (truthy_string auth) as [caller |]; [| split; [reflexivity | discriminate]].
  unfold is_global_admin.
  destruct (find_role caller (roles s) ≫= rd_tenants) as [m |] eqn:Em; cbn [negb];
    [| split; [reflexivity | discriminate]].
  destruct (bool_decide (m !! "global" = Some "admin")) eqn:Ea; cbn [negb];
    [| split; [reflexivity | discriminate]].
  apply bool_decide_eq_true in Ea.
  destruct (truthy_string (rq_email rq)) as [mail |]; [| split; [reflexivity | discriminate]].
  destruct (rq_tenants rq) as [ts |]; [| split; [reflexivity | discriminate]].
  destruct (getUserByEmail rt mail) as [user |]; [| split; [reflexivity | discriminate]].
  cbn [fst snd]. split; [discriminate |].
  intros id [= <-]. split; [exists caller, m; auto |].
  split; [| repeat split].
  intros id' Hne. cbn [roles set_roles]. now apply find_put_role_other.
Qed.

(** X13. Granting ["sdr"] or ["admin"] for a tenant with a region list that
    contains a region, or ["ALL"], puts the user into the pool of that
    tenant and region: the next [pickOwner] there can select the user. *)
Theorem granted_user_is_eligible (rt : Runtime) (auth : option string)
    (rq : RoleRequest) (s : store) (id t r : string) (ts : gmap string string)
    (l : list string) :
  (setUserRoleByEmail rt auth rq s).2 = inr id ->
  rq_tenants rq = Some ts ->
  ts !! t = Some "sdr" \/ ts !! t = Some "admin" ->
  rq_regions rq = Some l ->
  r ∈ l \/ "ALL" ∈ l ->
  exists o, o ∈ resolvePool t r (setUserRoleByEmail rt auth rq s).1 /\ uid o = id.
Proof.
  intros Hres Hts Hrole Hreg Hin. revert Hres. unfold setUserRoleByEmail.
  destruct (truthy_string auth) as [caller |]; [| discriminate].
  destruct (is_global_admin caller s); cbn [negb]; [| discriminate].
  destruct (truthy_string (rq_email rq)) as [mail |]; [| discriminate].
  rewrite Hts.
  destruct (getUserByEmail rt mail) as [user |]; [| discriminate].
  cbn [fst snd]. intros [= <-].
  set (d := role_write ts (rq_regions rq) mail _ _).
  exists (mkOwner (u_uid user) (rd_tenants d) (rd_regions d) (rd_email d) (rd_displayName d)).
  split; [| reflexivity].
  apply resolvePool_spec. split; [| split].
  - unfold role_entries. cbn [roles set_roles]. apply list_elem_of_fmap.
    exists (u_uid user, d). split; [reflexivity | apply elem_of_put_role].
  - cbn. eexists. split; [reflexivity |]. unfold merge_tenants.
    assert (Hne : ts <> ∅).
    { intros ->. rewrite lookup_empty in Hrole. destruct Hrole; discriminate. }
    destruct (decide (ts = ∅)); [contradiction |].
    destruct Hrole as [H | H]; [left | right]; now apply lookup_union_Some_l.
  - right. exists l. cbn. rewrite Hreg. split; [reflexivity | exact Hin].
Qed.

Lemma granted_user_is_eligible_witness :
  let rq := mkRoleRequest (Some "eve@acme.test") (Some {[ "acme" := "sdr" ]})
              (Some ["ALL"]) None in
  (setUserRoleByEmail Example.rt (Some "root") rq Example.with_admin).2 = inr "u3"
  /\ exists o, o ∈ resolvePool "acme" "west"
                     (setUserRoleByEmail Example.rt (Some "root") rq Example.with_admin).1
               /\ uid o = "u3".
Proof.
  cbv zeta.
  assert (H : (setUserRoleByEmail Example.rt (Some "root")
                 (mkRoleRequest (Some "eve@acme.test") (Some {[ "acme" := "sdr" ]})
                    (Some ["ALL"]) None) Example.with_admin).2 = inr "u3")
    by (vm_compute; reflexivity).
  split; [exact H |].
  apply (granted_user_is_eligible Example.rt (Some "root") _ Example.with_admin "u3"
           "acme" "west" {[ "acme" := "sdr" ]} ["ALL"] H eq_refl).
  - left. reflexivity.
  - reflexivity.
  - right. apply elem_of_cons. now left.
Defined.

(** [roles] stays ordered by document id, without two documents of
    the same id: a role update replaces the user's document where it stands
    or inserts it at its place, and afterwards the user's id leads to the
    document just written. *)
Theorem role_update_keeps_ids_sorted (rt : Runtime) (auth : option string)
    (rq : RoleRequest) (s : store) :
  sorted_ids (roles s) ->
  let res := setUserRoleByEmail rt auth rq s in
  sorted_ids (roles res.1)
  /\ NoDup (roles res.1).*1
  /\ (forall id, res.2 = inr id ->
        exists d, find_role id (roles res.1) = Some d
                  /\ forall d', (id, d') ∈ roles res.1 -> d' = d).
Proof.
  intros Hs. cbv zeta.
  assert (Hs' : sorted_ids (roles (setUserRoleByEmail rt auth rq s).1)).
  { unfold setUserRoleByEmail.
    destruct (truthy_string auth) as [caller |]; [| exact Hs].
    destruct (is_global_admin caller s); cbn [negb]; [| exact Hs].
    destruct (truthy_string (rq_email rq)) as [mail |]; [| exact Hs].
    destruct (rq_tenants rq) as [ts |]; [| exact Hs].
    destruct (getUserByEmail rt mail) as [user |]; [| exact Hs].
    cbn [fst roles set_roles]. now apply put_role_sorted. }
  split; [exact Hs' |]. split; [now apply sorted_ids_NoDup |].
  intros id Hres.
  assert (Hfind : exists d, (id, d) ∈ roles (setUserRoleByEmail rt auth rq s).1
                            /\ find_role id (roles (setUserRoleByEmail rt auth rq s).1) = Some d).
  { revert Hres. unfold setUserRoleByEmail.
    destruct (truthy_string auth) as [caller |]; [| discriminate].
    destruct (is_global_admin caller s); cbn [negb]; [| discriminate].
    destruct (truthy_string (rq_email rq)) as [mail |]; [| discriminate].
    destruct (rq_tenants rq) as [ts |]; [| discriminate].
    destruct (getUserByEmail rt mail) as [user |]; [| discriminate].
    cbn [fst snd roles set_roles]. intros [= <-].
    eexists. split; [apply elem_of_put_role | apply find_put_role]. }
  destruct Hfind as (d & Hin & Hf). exists d. split; [exact Hf |].
  intros d' Hin'. apply sorted_ids_NoDup in Hs'.
  eapply NoDup_fst_unique; eassumption.
Qed.

Lemma role_update_keeps_ids_sorted_witness :
  let rq := mkRoleRequest (Some "eve@acme.test") (Some {[ "acme" := "sdr" ]}) None None in
  sorted_ids (roles Example.with_admin)
  /\ sorted_ids (roles (setUserRoleByEmail Example.rt (Some "root") rq Example.with_admin).1)
  /\ (roles (setUserRoleByEmail Example.rt (Some "root") rq Example.with_admin).1).*1
     = ["root"; "u3"].
Proof.
  cbv zeta.
  assert (H : sorted_ids (roles Example.with_admin)).
  { unfold sorted_ids. cbn. repeat constructor. }
  split; [exact H |].
  split; [| vm_compute; reflexivity].
  exact (proj1 (role_update_keeps_ids_sorted Example.rt (Some "root") _ Example.with_admin H)).
Defined.

Lemma role_update_authorized_and_local_witness :
  let rq := mkRoleRequest (Some "eve@acme.test") (Some {[ "acme" := "sdr" ]}) None None in
  (setUserRoleByEmail Example.rt (Some "u1") rq Example.two_sdrs).2 = inl GlobalAdminOnly
  /\ (setUserRoleByEmail Example.rt (Some "u1") rq Example.two_sdrs).1 = Example.two_sdrs.
Proof.
  cbv zeta.
  assert (H : (setUserRoleByEmail Example.rt (Some "u1")
                 (mkRoleRequest (Some "eve@acme.test") (Some {[ "acme" := "sdr" ]}) None None)
                 Example.two_sdrs).2 = inl GlobalAdminOnly) by (vm_compute; reflexivity).
  split; [exact H |].
  exact (proj1 (role_update_authorized_and_local Example.rt (Some "u1") _ Example.two_sdrs)
           _ H).
Defined.

(** X14. A role update merges the [tenants] map of the request into the one
    stored for the user: the role for each tenant named in a (non-empty)
    request is the requested one, the roles the user had for other tenants
    are kept. The [regions] list is replaced as a whole. *)
Theorem role_update_merges_tenants (rt : Runtime) (auth : option string)
    (rq : RoleRequest) (s : store) (id : string) (ts m : gmap string string)
    (old : RoleDoc) :
  (setUserRoleByEmail rt auth rq s).2 = inr id ->
  rq_tenants rq = Some ts ->
  ts <> ∅ ->
  find_role id (roles s) = Some old ->
  rd_tenants old = Some m ->
  exists d m',
    find_role id (roles (setUserRoleByEmail rt auth rq s).1) = Some d
    /\ rd_tenants d = Some m'
    /\ (forall t, m' !! t = match ts !! t with Some x => Some x | None => m !! t end)
    /\ rd_regions d = Some (default [] (rq_regions rq)).
Proof.
  intros Hres Hts Hne Hold Hm. revert Hres. unfold setUserRoleByEmail.
  destruct (truthy_string auth) as [caller |]; [| discriminate].
  destruct (is_global_admin caller s); cbn [negb]; [| discriminate].
  destruct (truthy_string (rq_email rq)) as [mail |]; [| discriminate].
  rewrite Hts.
  destruct (getUserByEmail rt mail) as [user |]; [| discriminate].
  cbn [fst snd roles set_roles]. intros [= <-].
  rewrite find_put_role, Hold. unfold role_write.
  cbn [mbind option_bind]. rewrite Hm.
  eexists. eexists. split; [reflexivity |]. cbn [rd_tenants rd_regions].
  split; [reflexivity |]. split; [| reflexivity].
  intros t. unfold merge_tenants. destruct (decide (ts = ∅)); [contradiction |].
  destruct (ts !! t) as [x |] eqn:E.
  - now apply lookup_union_Some_l.
  - now rewrite lookup_union_r.
Qed.

Lemma role_update_merges_tenants_witness :
  let s := mkStore [("root", Example.root_admin); ("u3", Example.sdr "beta" "eve@acme.test")]
                   ∅ ∅ [] [] [] in
  let rq := mkRoleRequest (Some "eve@acme.test") (Some {[ "acme" := "admin" ]}) None None in
  (setUserRoleByEmail Example.rt (Some "root") rq s).2 = inr "u3"
  /\ exists d m',
       find_role "u3" (roles (setUserRoleByEmail Example.rt (Some "root") rq s).1) = Some d
       /\ rd_tenants d = Some m'
       /\ m' !! "beta" = Some "sdr" /\ m' !! "acme" = Some "admin".
Proof.
  cbv zeta.
  set (s := mkStore [("root", Example.root_admin); ("u3", Example.sdr "beta" "eve@acme.test")]
                    ∅ ∅ [] [] []).
  set (rq := mkRoleRequest (Some "eve@acme.test") (Some {[ "acme" := "admin" ]}) None None).
  assert (H : (setUserRoleByEmail Example.rt (Some "root") rq s).2 = inr "u3")
    by (vm_compute; reflexivity).
  split; [exact H |].
  destruct (role_update_merges_tenants Example.rt (Some "root") rq s "u3"
              {[ "acme" := "admin" ]} {[ "beta" := "sdr" ]}
              (Example.sdr "beta" "eve@acme.test") H eq_refl)
    as (d & m' & Hf & Ht & Hl & _).
  - intros E. apply (f_equal (fun x : gmap string string => x !! "acme")) in E.
    vm_compute in E. discriminate.
  - reflexivity.
  - reflexivity.
  - exists d, m'. split; [exact Hf |]. split; [exact Ht |].
    split; rewrite Hl; reflexivity.
Defined.

(** ** More on the nightly recompute *)

(** X15. A run with valid clock readings touches nothing but the prospect
    documents, keeps their number, and leaves every one of them, whatever it
    contained, with a [score], an [updatedAt] and a [stage] that is ["P1"],
    ["nurture"] or ["research"]: no prospect is in stage ["hold"] after a
    run. *)
Theorem recalc_touches_prospects_only (rt : Runtime) (now : Z) (clock : pkey -> Z)
    (ct : Timestamp) (s : store) :
  (forall k, is_Some (Timestamp_fromMillis (Some (clock k)))) ->
  let s' := (recalculateScores rt now clock ct s).1 in
  roles s' = roles s /\ routing s' = routing s /\ contacts s' = contacts s
  /\ signals s' = signals s /\ audit s' = audit s
  /\ dom (prospects s') = dom (prospects s)
  /\ forall k (p' : doc), prospects s' !! k = Some p' ->
       is_Some (p' !! "score") /\ is_Some (p' !! "updatedAt")
       /\ (p' !! "stage" = Some (FStr "P1") \/ p' !! "stage" = Some (FStr "nurture")
           \/ p' !! "stage" = Some (FStr "research"))
       /\ p' !! "stage" <> Some (FStr "hold").
Proof.
  intros Hclock. cbv zeta.
  destruct (recalculateScores_spec rt now clock ct s Hclock)
    as (s' & -> & Hr & Hg & Hc & Hsg & Ha & Hp).
  cbn [fst]. repeat (split; [assumption |]). split.
  - apply set_eq. intros k. rewrite !elem_of_dom, Hp.
    destruct (prospects s !! k); cbn; split; intros [? H]; eauto; discriminate.
  - intros k p' Hk. rewrite Hp in Hk.
    destruct (prospects s !! k) as [p |]; [| discriminate].
    destruct (Hclock k) as [stamp Hs]. rewrite Hs in Hk.
    cbn [fmap option_fmap option_map] in Hk. injection Hk as <-.
    destruct (recalc_stored_lookup rt now stamp p) as (-> & -> & -> & _).
    assert (Hstage : stage_of (decayed_score rt now p) = "P1"
                     \/ stage_of (decayed_score rt now p) = "nurture"
                     \/ stage_of (decayed_score rt now p) = "research").
    { unfold stage_of. destruct (JS.ge _ _); [auto |]. destruct (JS.ge _ _); auto. }
    split; [eauto |]. split; [eauto |]. split.
    + destruct Hstage as [-> | [-> | ->]]; auto.
    + destruct Hstage as [-> | [-> | ->]]; discriminate.
Qed.

Lemma recalc_touches_prospects_only_witness :
  let s := mkStore [] ∅ {[ ("acme", "a_verity") := ({[ "stage" := FStr "hold" ]} : doc) ]}
                   [] [] [] in
  (forall k : pkey, is_Some (Timestamp_fromMillis (Some 1700000000000)))
  /\ dom (prospects (recalculateScores Example.rt 1700000000000
                       (fun _ => 1700000000000) Example.t0 s).1)
     = dom (prospects s).
Proof.
  cbv zeta.
  assert (H : forall k : pkey, is_Some (Timestamp_fromMillis (Some 1700000000000)))
    by (intros _; vm_compute; eauto).
  split; [exact H |].
  exact (proj1 (proj2 (proj2 (proj2 (proj2 (proj2
    (recalc_touches_prospects_only Example.rt 1700000000000 (fun _ => 1700000000000)
       Example.t0 _ H))))))).
Defined.

Section Stale.

Variable rt : Runtime.

Lemma decayed_score_stale now (p : doc) z t :
  p !! "score" = Some (FInt z) ->
  p !! "lastContactedAt" = Some (FTime t) ->
  seconds t <> 0 ->
  min_seconds <= seconds t <= max_seconds ->
  3 <= (now - seconds t * 1000) / ms_per_day ->
  decayed_score rt now p = Some (Z.max 0 (z - 2)).
Proof.
  intros Hs Hl Hnz Hr Hdays. unfold decayed_score.
  rewrite (read_score_int rt p z Hs), (read_last_timestamp rt p t Hl Hnz Hr). cbn.
  destruct (Z.leb_spec 3 ((now - seconds t * 1000) / ms_per_day)); [reflexivity | lia].
Qed.

End Stale.

(** X16. A prospect that is not contacted again keeps losing score: after
    [n] successive runs, each at least three days after the stored contact
    time, its score is [max 0 (z - 2n)] where [z >= 0] was its score before,
    and its contact time is still the same. *)
Theorem repeated_decay (rt : Runtime) (ct : Timestamp) (k : pkey) (t : Timestamp)
    (nights : list (Z * (pkey -> Z))) :
  seconds t <> 0 ->
  min_seconds <= seconds t <= max_seconds ->
  Forall (fun night =>
            (forall k', is_Some (Timestamp_fromMillis (Some (night.2 k'))))
            /\ 3 <= (night.1 - seconds t * 1000) / ms_per_day) nights ->
  forall (s : store) (p : doc) (z : Z),
    0 <= z ->
    prospects s !! k = Some p ->
    p !! "score" = Some (FInt z) ->
    p !! "lastContactedAt" = Some (FTime t) ->
    exists p' : doc,
      prospects (run_nights rt nights ct s) !! k = Some p'
      /\ p' !! "score" = Some (FInt (Z.max 0 (z - 2 * Z.of_nat (length nights))))
      /\ p' !! "lastContactedAt" = Some (FTime t).
Proof.
  intros Hnz Hr HF. induction HF as [| [now clock] nights [Hclock Hdays] _ IH];
    intros s p z Hz Hk Hs Hl.
  - exists p. cbn [run_nights length]. split; [exact Hk |]. split; [| exact Hl].
    rewrite Hs. do 2 f_equal. change (Z.of_nat 0) with 0. lia.
  - cbn [run_nights]. cbn [fst snd] in Hclock, Hdays.
    destruct (recalculateScores_spec rt now clock ct s Hclock)
      as (s' & -> & _ & _ & _ & _ & _ & Hp).
    specialize (Hp k). rewrite Hk in Hp. destruct (Hclock k) as [stamp Hst].
    rewrite Hst in Hp. cbn [fmap option_fmap option_map] in Hp.
    destruct (recalc_stored_lookup rt now stamp p) as (Hsc & _ & _ & Hoth).
    rewrite (decayed_score_stale rt now p z t Hs Hl Hnz Hr Hdays) in Hsc. cbn [num_val] in Hsc.
    destruct (IH s' _ (Z.max 0 (z - 2)) ltac:(lia) Hp Hsc) as (p' & Hk' & Hs' & Hl').
    { rewrite Hoth by discriminate. exact Hl. }
    exists p'. split; [exact Hk' |]. split; [| exact Hl'].
    rewrite Hs'. do 2 f_equal. cbn [length]. lia.
Qed.

(** Three nights for a prospect with score 5. *)
Lemma repeated_decay_witness :
  (seconds Example.stale_contact <> 0 /\ 0 <= 5)
  /\ exists p' : doc,
       prospects (run_nights Example.rt
                    [Example.night 3; Example.night 4; Example.night 5]
                    Example.t0 Example.stale_store)
         !! ("acme", "a_verity") = Some p'
       /\ p' !! "score" = Some (FInt 0).
Proof.
  assert (H1 : seconds Example.stale_contact <> 0) by (vm_compute; discriminate).
  assert (H2 : min_seconds <= seconds Example.stale_contact <= max_seconds)
    by (vm_compute; split; discriminate).
  assert (H3 : Forall (fun night : Z * (pkey -> Z) =>
                         (forall k', is_Some (Timestamp_fromMillis (Some (night.2 k'))))
                         /\ 3 <= (night.1 - seconds Example.stale_contact * 1000) / ms_per_day)
                      [Example.night 3; Example.night 4; Example.night 5]).
  { apply Forall_cons_2; [| apply Forall_cons_2; [| apply Forall_cons_2; [| apply Forall_nil_2]]].
    all: split; [intros k0; vm_compute; eauto | vm_compute; discriminate]. }
  assert (H4 : prospects Example.stale_store !! ("acme", "a_verity") = Some Example.stale_doc)
    by (vm_compute; reflexivity).
  assert (H5 : Example.stale_doc !! "score" = Some (FInt 5)) by (vm_compute; reflexivity).
  assert (H6 : Example.stale_doc !! "lastContactedAt" = Some (FTime Example.stale_contact))
    by (vm_compute; reflexivity).
  assert (H7 : 0 <= 5) by lia.
  split; [split; [exact H1 | exact H7] |].
  destruct (repeated_decay Example.rt Example.t0 ("acme", "a_verity") Example.stale_contact
              [Example.night 3; Example.night 4; Example.night 5] H1 H2 H3
              Example.stale_store Example.stale_doc 5 H7 H4 H5 H6)
    as (p' & Hk & Hs & _).
  exists p'. split; [exact Hk | exact Hs].
Defined.
